(** * hive_agent/agent.py: the HiveAgent host object

    A shallow embedding of [HiveAgent] (src/hive_agent/agent.py): tool and
    provider selection in [__setup], the signal handler, the asynchronous
    [shutdown_procedures], [run_server] and [__cleanup].

    Python values are modelled as the code uses them: strings as [string],
    the signal number as [Z], exceptions as a class with a message, the
    tasks of the asyncio event loop as a list indexed by creation order, and
    [try]/[except]/[finally] as combinators of a state-and-exception monad
    over the state of the process.

    The event loop is a step relation on that state.  A coroutine of
    agent.py is cut at its [await]s into the functions the loop runs; a task
    that runs other code is opaque and may settle with any outcome, at any
    time or never.  The relation says which steps are possible, not which
    one the loop takes next.

    The parts of construction that do not build the agent
    ([_check_optional_dependencies], the wallet step of [__setup],
    [configure_cors], [__setup_server]) and [run] are embedded too; they act
    on the dictionary of optional dependencies, the middleware of the
    application and the table of signal handlers of the process. *)

From Stdlib Require Import ZArith Lia Bool String Ascii DecimalString.
From stdpp Require Import base option list strings gmap.

Local Open Scope string_scope.
Local Open Scope list_scope.

(** ** Python values used by [__setup] *)

Module Py.

(** [sub in s] on strings: [sub] occurs in [s] as a contiguous substring. *)
Fixpoint contains (sub s : string) : bool :=
  String.prefix sub s ||
  match s with
  | EmptyString => false
  | String _ rest => contains sub rest
  end.

(** The two kinds of value the conditions of [__setup] produce. *)
Inductive value :=
| Str (s : string)
| Bool (b : bool).

(** Truth value testing: a string is false exactly when it is empty. *)
Definition truthy (v : value) : bool :=
  match v with
  | Str s => negb (String.eqb s "")
  | Bool b => b
  end.

(** [a or b] evaluates to [a] when [a] is true, otherwise to [b]. *)
Definition or (a b : value) : value := if truthy a then a else b.

(** [sub in s] as a value. *)
Definition is_in (sub s : string) : value := Bool (contains sub s).

End Py.

(** ** The file-system object found at [files.BASE_DIR] *)

Inductive path_state :=
| Missing                               (* nothing at the path *)
| RegularFile (size : Z)                (* os.path.isfile *)
| Directory (entries : list string)     (* os.path.isdir *)
| Special.                              (* exists, neither file nor directory *)

Definition os_path_exists (p : path_state) : bool :=
  match p with Missing => false | _ => true end.

Definition os_path_isfile (p : path_state) : bool :=
  match p with RegularFile _ => true | _ => false end.

Definition os_path_isdir (p : path_state) : bool :=
  match p with Directory _ => true | _ => false end.

Definition os_path_getsize (p : path_state) : Z :=
  match p with RegularFile n => n | _ => 0%Z end.

Definition os_listdir (p : path_state) : list string :=
  match p with Directory es => es | _ => [] end.

(** [bool(l)] of a list. *)
Definition bool_of_list {A} (l : list A) : bool :=
  match l with [] => false | _ => true end.

(** ** [HiveAgent.__setup] *)

Inductive llm := OpenAILLM | ClaudeLLM | OllamaLLM | MistralLLM.

(** The arm of the [if]/[elif]/[else] chain on the model name that runs. *)
Inductive branch := IfGpt | ElifClaude | ElifLlama | ElifMistral | ElseDefault.

Definition llm_of_branch (b : branch) : llm :=
  match b with
  | IfGpt => OpenAILLM
  | ElifClaude => ClaudeLLM
  | ElifLlama => OllamaLLM
  | ElifMistral => MistralLLM
  | ElseDefault => OpenAILLM
  end.

(** The chain of lines 107-116; each condition is evaluated as Python
    evaluates it, [elif "mixtral" or "mistral" in model] being
    ["mixtral" or ("mistral" in model)]. *)
Definition select_branch (model : string) : branch :=
  if Py.truthy (Py.is_in "gpt" model) then IfGpt
  else if Py.truthy (Py.is_in "claude" model) then ElifClaude
  else if Py.truthy (Py.is_in "llama" model) then ElifLlama
  else if Py.truthy (Py.or (Py.Str "mixtral") (Py.is_in "mistral" model))
       then ElifMistral
  else ElseDefault.

Section Setup.

(** The collaborators of [__setup] that live outside agent.py. *)
Variables Func Tool Retriever : Type.
Variable from_defaults : Func -> Tool.            (* FunctionTool.from_defaults *)
Variable basic_retrieve : list Tool -> list string -> Retriever.
Variables get_db_schemas text_2_sql : Func.

(** The attributes of [self] that [__setup] reads, and the [model] entry of
    the configuration ([None] when the key is absent). *)
Record agent_args := {
  functions : list Func;
  instruction : string;
  retrieve : bool;
  required_exts : list string;
  config_model : option string;
}.

(** The call [XxxLLM(tools, self.instruction, tool_retriever)]. *)
Record llm_call := {
  call_llm : llm;
  call_tools : list Tool;
  call_instruction : string;
  call_tool_retriever : option Retriever;
}.

Definition _tools_from_funcs (funcs : list Func) : list Tool :=
  map from_defaults funcs.

(** The lambda of lines 90-98. *)
Definition is_base_dir_not_empty (base_dir : path_state) : bool :=
  os_path_exists base_dir &&
  (if os_path_isfile base_dir then (0 <? os_path_getsize base_dir)%Z
   else if os_path_isdir base_dir then bool_of_list (os_listdir base_dir)
   else false).

(** Line 102: [is_base_dir_not_empty() == True & self.retrieve == True].
    [&] binds tighter than [==], and the two [==] chain, so the condition is
    [a == (True & r) and (True & r) == True]. *)
Definition retrieve_condition (base_dir : path_state) (r : bool) : bool :=
  let a := is_base_dir_not_empty base_dir in
  let m := true && r in
  Bool.eqb a m && Bool.eqb m true.

Definition config_get_model (self : agent_args) : string :=
  default "gpt-3.5-turbo" (config_model self).

Definition setup (self : agent_args) (base_dir : path_state) : llm_call :=
  let custom_tools := _tools_from_funcs (functions self) in
  let system_tools := _tools_from_funcs [get_db_schemas; text_2_sql] in
  let tools := custom_tools ++ system_tools in
  let '(tool_retriever, tools) :=
    if retrieve_condition base_dir (retrieve self)
    then (Some (basic_retrieve tools (required_exts self)), [])
    else (None, tools) in
  let model := config_get_model self in
  {| call_llm := llm_of_branch (select_branch model);
     call_tools := tools;
     call_instruction := instruction self;
     call_tool_retriever := tool_retriever |}.

End Setup.

Arguments functions {Func}.
Arguments instruction {Func}.
Arguments retrieve {Func}.
Arguments required_exts {Func}.
Arguments config_model {Func}.
Arguments config_get_model {Func}.
Arguments call_llm {Tool Retriever}.
Arguments call_tools {Tool Retriever}.
Arguments call_instruction {Tool Retriever}.
Arguments call_tool_retriever {Tool Retriever}.
Arguments _tools_from_funcs {Func Tool}.
Arguments setup {Func Tool Retriever}.

(** ** Exceptions, results and logging *)

(** The classes of exception that matter to [except Exception]: the first four
    derive from [BaseException] only, every other class derives from
    [Exception]. *)
Inductive exc_class :=
| CancelledError
| KeyboardInterrupt
| SystemExit
| GeneratorExit
| RuntimeError
| OtherException (name : string).

Definition issubclass_Exception (c : exc_class) : bool :=
  match c with
  | CancelledError | KeyboardInterrupt | SystemExit | GeneratorExit => false
  | RuntimeError | OtherException _ => true
  end.

(** An exception instance: its class and [str(e)]. *)
Record exc := { exc_type : exc_class; exc_str : string }.

Definition isinstance_Exception (e : exc) : bool :=
  issubclass_Exception (exc_type e).

(** How a call or an [await] ends. *)
Inductive result (A : Type) :=
| Return (a : A)
| Raise (e : exc).

Arguments Return {A}.
Arguments Raise {A}.

Definition is_return {A} (r : result A) : bool :=
  match r with Return _ => true | Raise _ => false end.

Inductive level := DEBUG | INFO | WARNING | ERROR.

(** One call of [logging.debug], [logging.info] or [logging.error]. *)
Record log_record := { record_level : level; record_msg : string }.

(** Entering and leaving the calls whose order matters to the shutdown
    sequence (the serving loop, [__cleanup], [close]); [leave_ok] is [true]
    for a normal return. *)
Inductive call_event :=
| Enter (name : string)
| Leave (name : string) (leave_ok : bool).

(** [str(n)] of an integer, as an f-string renders it. *)
Definition str_int (n : Z) : string := NilZero.string_of_int (Z.to_int n).

(** ** Tasks of the event loop *)

(** The terminal states of a task. *)
Inductive outcome :=
| Completed
| Cancelled
| Failed (e : exc).

(** A task is pending, with or without an undelivered cancellation request,
    or done. *)
Inductive status :=
| Pending (cancel_requested : bool)
| Done (o : outcome).

(** Where a task running [shutdown_procedures] stands: created and not yet
    run, or suspended in [await asyncio.gather( *tasks, ...)] on the tasks it
    enumerated. *)
Inductive sd_pc :=
| SdCreated
| SdWaiting (ts : list nat).

(** What a task runs: code outside agent.py, or [shutdown_procedures]. *)
Inductive coro :=
| Opaque
| ShutdownProcedures (pc : sd_pc).

Record task := { t_coro : coro; t_status : status }.

(** The object attached as [self.db_session]: how [await close()] ends. *)
Record session := { close_result : result unit }.

(** ** State of the process *)

Record world := {
  loop_running : bool;                (* an event loop runs in this thread *)
  tasks : list task;                  (* every task, by creation order *)
  shutdown_event : bool;              (* self.shutdown_event.is_set() *)
  db_session : option session;        (* None: no attribute db_session *)
  log : list log_record;
  calls : list call_event;
}.

Definition set_loop_running (b : bool) (w : world) : world :=
  {| loop_running := b; tasks := tasks w;
     shutdown_event := shutdown_event w; db_session := db_session w;
     log := log w; calls := calls w |}.

Definition set_tasks (f : list task -> list task) (w : world) : world :=
  {| loop_running := loop_running w; tasks := f (tasks w);
     shutdown_event := shutdown_event w; db_session := db_session w;
     log := log w; calls := calls w |}.

Definition set_shutdown_event (b : bool) (w : world) : world :=
  {| loop_running := loop_running w; tasks := tasks w;
     shutdown_event := b; db_session := db_session w;
     log := log w; calls := calls w |}.

Definition set_db_session (s : option session) (w : world) : world :=
  {| loop_running := loop_running w; tasks := tasks w;
     shutdown_event := shutdown_event w; db_session := s;
     log := log w; calls := calls w |}.

Definition add_log (r : log_record) (w : world) : world :=
  {| loop_running := loop_running w; tasks := tasks w;
     shutdown_event := shutdown_event w; db_session := db_session w;
     log := log w ++ [r]; calls := calls w |}.

Definition add_call (c : call_event) (w : world) : world :=
  {| loop_running := loop_running w; tasks := tasks w;
     shutdown_event := shutdown_event w; db_session := db_session w;
     log := log w; calls := calls w ++ [c] |}.

(** The process after [HiveAgent.__init__]: [asyncio.Event()] is unset, no
    loop runs yet and no [db_session] is attached. *)
Definition init_world : world :=
  {| loop_running := false; tasks := []; shutdown_event := false;
     db_session := None; log := []; calls := [] |}.

(** ** A monad for code that changes the process and may raise *)

Definition M (A : Type) : Type := world -> world * result A.

Definition ret {A} (a : A) : M A := fun w => (w, Return a).

Definition bind {A B} (m : M A) (k : A -> M B) : M B :=
  fun w =>
    match m w with
    | (w', Return a) => k a w'
    | (w', Raise e) => (w', Raise e)
    end.

Notation "x <-- m ;; k" := (bind m (fun x => k))
  (at level 100, m at next level, right associativity).
Notation "m ;;; k" := (bind m (fun _ => k))
  (at level 100, right associativity).

(** [try: body  except Exception as e: handler e]. *)
Definition try_except_Exception {A} (body : M A) (handler : exc -> M A) : M A :=
  fun w =>
    match body w with
    | (w', Return a) => (w', Return a)
    | (w', Raise e) =>
        if isinstance_Exception e then handler e w' else (w', Raise e)
    end.

(** [try: body  finally: final]: [final] always runs; an exception of
    [final] replaces the outcome of [body]. *)
Definition try_finally {A} (body : M A) (final : M unit) : M A :=
  fun w =>
    match body w with
    | (w1, r) =>
        match final w1 with
        | (w2, Return _) => (w2, r)
        | (w2, Raise e) => (w2, Raise e)
        end
    end.

Definition modify (f : world -> world) : M unit := fun w => (f w, Return tt).

Definition logging (l : level) (msg : string) : M unit :=
  modify (add_log {| record_level := l; record_msg := msg |}).

(** A call into code outside agent.py that ends as [r], bracketed in
    [calls]. *)
Definition external {A} (name : string) (r : result A) : M A :=
  fun w =>
    (add_call (Leave name (is_return r))
       (add_call (Enter name) w), r).

(** A call of a method of this class, bracketed in [calls]. *)
Definition traced {A} (name : string) (body : M A) : M A :=
  fun w =>
    match body (add_call (Enter name) w) with
    | (w', r) => (add_call (Leave name (is_return r)) w', r)
    end.

(** ** The asyncio operations the class uses *)

Definition is_done (t : task) : bool :=
  match t_status t with Done _ => true | Pending _ => false end.

(** [t.done()] of the task with index [i]. *)
Definition task_done (w : world) (i : nat) : bool :=
  match tasks w !! i with
  | Some t => is_done t
  | None => false
  end.

(** [asyncio.all_tasks()]: the tasks of the loop that are not yet done. *)
Definition all_tasks (w : world) : list nat :=
  List.filter (fun i => negb (task_done w i)) (seq 0 (length (tasks w))).

(** [Task.cancel()]: requests cancellation of a pending task and does
    nothing to a task that is done. *)
Definition request_cancel (t : task) : task :=
  match t_status t with
  | Pending _ => {| t_coro := t_coro t; t_status := Pending true |}
  | Done _ => t
  end.

Definition task_cancel (i : nat) (w : world) : world :=
  set_tasks (alter request_cancel i) w.

Definition set_status (i : nat) (s : status) (w : world) : world :=
  set_tasks (alter (fun t => {| t_coro := t_coro t; t_status := s |}) i) w.

Definition set_coro (i : nat) (c : coro) (w : world) : world :=
  set_tasks (alter (fun t => {| t_coro := c; t_status := t_status t |}) i) w.

(** [asyncio.create_task(coro)]: needs a running loop, and returns the new
    task, here its index. *)
Definition asyncio_create_task (c : coro) : M nat :=
  fun w =>
    if loop_running w
    then (set_tasks (fun l => l ++ [{| t_coro := c; t_status := Pending false |}]) w,
          Return (length (tasks w)))
    else (w, Raise {| exc_type := RuntimeError;
                      exc_str := "no running event loop" |}).

(** ** [HiveAgent.__signal_handler] *)

Definition signal_handler (signum : Z) : M unit :=
  logging INFO ("signal " +:+ str_int signum +:+
                " received, initiating graceful shutdown...") ;;;
  _ <-- asyncio_create_task (ShutdownProcedures SdCreated) ;;
  ret tt.

(** ** [HiveAgent.shutdown_procedures] *)

(** Line 197: every task of [all_tasks()] that is not the current task. *)
Definition shutdown_enumerate (me : nat) (w : world) : list nat :=
  List.filter (fun t => negb (Nat.eqb t me)) (all_tasks w).

(** Line 198. *)
Definition cancel_all (ts : list nat) (w : world) : world :=
  fold_left (fun w t => task_cancel t w) ts w.

(** Lines 201-202, and the coroutine returns. *)
Definition shutdown_finish (me : nat) (w : world) : world :=
  set_status me (Done Completed)
    (add_log {| record_level := INFO;
                record_msg := "all tasks have been cancelled or completed" |}
       (set_shutdown_event true w)).

(** The body up to its only suspension point.  [gather] of no task is a
    future that is already done, so [await] does not suspend and the body
    runs to its end; otherwise the task suspends until [gather] is done. *)
Definition shutdown_begin (me : nat) (w : world) : world :=
  let tasks := shutdown_enumerate me w in
  let w := cancel_all tasks w in
  match tasks with
  | [] => shutdown_finish me w
  | _ :: _ => set_coro me (ShutdownProcedures (SdWaiting tasks)) w
  end.

(** The loop runs the task [me] for the first time.  A cancellation requested
    before that is thrown into the coroutine before its first line. *)
Definition sd_start (me : nat) (w : world) : option world :=
  match tasks w !! me with
  | Some {| t_coro := ShutdownProcedures SdCreated; t_status := Pending c |} =>
      Some (if c then set_status me (Done Cancelled) w
            else shutdown_begin me w)
  | _ => None
  end.

(** The loop resumes the task [me] from [await asyncio.gather( *tasks,
    return_exceptions=True)].  [gather] is done only when each of [tasks] is
    done, whatever their outcomes; a cancellation of [me] itself is raised
    at the [await]. *)
Definition sd_resume (me : nat) (w : world) : option world :=
  match tasks w !! me with
  | Some {| t_coro := ShutdownProcedures (SdWaiting ts); t_status := Pending c |} =>
      if forallb (task_done w) ts
      then Some (if c then set_status me (Done Cancelled) w
                 else shutdown_finish me w)
      else None
  | _ => None
  end.

(** ** [HiveAgent.__cleanup] *)

(** [self.db_session] if [hasattr(self, "db_session")]. *)
Definition get_db_session : M (option session) :=
  fun w => (w, Return (db_session w)).

Definition cleanup : M unit :=
  traced "__cleanup"
    (try_finally
       (try_except_Exception
          (attached <-- get_db_session ;;
           match attached with
           | Some s =>
               external "db_session.close" (close_result s) ;;;
               logging DEBUG "database connection closed"
           | None => ret tt
           end)
          (fun e => logging ERROR ("error during cleanup: " +:+ exc_str e)))
       (logging INFO "cleanup process completed")).

(** ** [HiveAgent.run_server] *)

(** How the calls into uvicorn end. *)
Record uvicorn := {
  Config_result : result unit;        (* uvicorn.Config(...) *)
  Server_result : result unit;        (* uvicorn.Server(config) *)
  serve_result : result unit;         (* await server.serve() *)
}.

(** The [try] block with its [except] clause (lines 162-171). *)
Definition serve_guarded (u : uvicorn) : M unit :=
  try_except_Exception
    (external "uvicorn.Config" (Config_result u) ;;;
     external "uvicorn.Server" (Server_result u) ;;;
     external "server.serve" (serve_result u))
    (fun e =>
       logging ERROR
         ("unexpected error while running the server: " +:+ exc_str e)).

(** ... and its [finally] clause (lines 172-173). *)
Definition run_server (u : uvicorn) : M unit :=
  try_finally (serve_guarded u) cleanup.

(** ** Steps of the process *)

(** One step: the event loop starts or stops; a task outside agent.py is
    created, settles, is cancelled or absorbs a cancellation; a [db_session]
    is attached; a signal arrives; a task running [shutdown_procedures] is
    run or resumed; [run_server] or [__cleanup] runs.  Cancelling a task that
    is suspended in [gather] also requests the cancellation of the tasks it
    waits for: each of these requests is a [step_cancel] of its own. *)
Inductive step : world -> world -> Prop :=
| step_loop w b :
    step w (set_loop_running b w)
| step_create w :
    step w (fst (asyncio_create_task Opaque w))
| step_settle w i c o :
    tasks w !! i = Some {| t_coro := Opaque; t_status := Pending c |} ->
    step w (set_status i (Done o) w)
| step_cancel w i :                    (* some task calls [cancel] on task i *)
    step w (task_cancel i w)
| step_absorb w i :
    tasks w !! i = Some {| t_coro := Opaque; t_status := Pending true |} ->
    step w (set_status i (Pending false) w)
| step_attach w s :
    step w (set_db_session (Some s) w)
| step_signal w signum :
    step w (fst (signal_handler signum w))
| step_sd_start w me w' :
    sd_start me w = Some w' ->
    step w w'
| step_sd_resume w me w' :
    sd_resume me w = Some w' ->
    step w w'
| step_run_server w u :
    step w (fst (run_server u w))
| step_cleanup w :
    step w (fst (cleanup w)).

(** Zero or more steps. *)
Inductive steps : world -> world -> Prop :=
| steps_refl w : steps w w
| steps_step w1 w2 w3 : steps w1 w2 -> step w2 w3 -> steps w1 w3.

(** The tasks a task running [shutdown_procedures] cancels and waits for:
    those it will enumerate when it runs, or those it has enumerated. *)
Definition enumerated (me : nat) (w : world) : list nat :=
  match tasks w !! me with
  | Some {| t_coro := ShutdownProcedures (SdWaiting ts) |} => ts
  | _ => shutdown_enumerate me w
  end.

Definition status_of (w : world) (i : nat) : option status :=
  t_status <$> tasks w !! i.

(** ** Notions used to state the properties *)

(** The records [__cleanup] logs. *)
Definition cleanup_completed : log_record :=
  {| record_level := INFO; record_msg := "cleanup process completed" |}.

Definition cleanup_error (e : exc) : log_record :=
  {| record_level := ERROR;
     record_msg := "error during cleanup: " +:+ exc_str e |}.

(** The ways the entry [t] of task [j] can change into [t'] in a step from
    [w] to [w']. *)
Inductive entry_change (w w' : world) (j : nat) (t t' : task) : Prop :=
| ec_same :
    t' = t -> entry_change w w' j t t'
| ec_cancel :
    t' = request_cancel t -> entry_change w w' j t t'
| ec_opaque c :
    t = {| t_coro := Opaque; t_status := Pending c |} ->
    t_coro t' = Opaque ->
    entry_change w w' j t t'
| ec_started c :
    t = {| t_coro := ShutdownProcedures SdCreated; t_status := Pending c |} ->
    sd_start j w = Some w' ->
    entry_change w w' j t t'
| ec_resumed ts c :
    t = {| t_coro := ShutdownProcedures (SdWaiting ts); t_status := Pending c |} ->
    forallb (task_done w) ts = true ->
    t' = {| t_coro := ShutdownProcedures (SdWaiting ts);
            t_status := Done (if c then Cancelled else Completed) |} ->
    (c = false -> shutdown_event w' = true) ->
    entry_change w w' j t t'.

(** A done task stays as it is, and a task suspended in [gather] keeps its
    list of tasks. *)
Definition task_evolves (t t' : task) : Prop :=
  (is_done t = true -> t' = t) /\
  (forall ts, t_coro t = ShutdownProcedures (SdWaiting ts) ->
              t_coro t' = ShutdownProcedures (SdWaiting ts)).

(** Where a task that suspended in [gather] on the tasks [ts] can be later:
    still suspended; returned, with every task of [ts] done and the event
    set; or ended by its own cancellation. *)
Definition waiting_or_ended (me : nat) (ts : list nat) (w : world) : Prop :=
  (exists c,
     tasks w !! me =
       Some {| t_coro := ShutdownProcedures (SdWaiting ts);
               t_status := Pending c |}) \/
  (exists k,
     tasks w !! me = Some {| t_coro := k; t_status := Done Completed |} /\
     (forall i, In i ts -> task_done w i = true) /\
     shutdown_event w = true) \/
  (exists k,
     tasks w !! me = Some {| t_coro := k; t_status := Done Cancelled |}).

(** The record the signal handler logs, and the task it creates. *)
Definition signal_received (signum : Z) : log_record :=
  {| record_level := INFO;
     record_msg := "signal " +:+ str_int signum +:+
                   " received, initiating graceful shutdown..." |}.

Definition shutdown_task : task :=
  {| t_coro := ShutdownProcedures SdCreated; t_status := Pending false |}.

(** ** One callback of the running loop *)

(** [Task.__step] (asyncio/tasks.py) keeps an exception that leaves the
    coroutine in the task.  [KeyboardInterrupt] and [SystemExit] it also
    raises again, and [Handle._run] (asyncio/events.py) lets these two
    through to [run_forever]. *)
Definition reraised_by_step (e : exc) : bool :=
  match exc_type e with
  | KeyboardInterrupt | SystemExit => true
  | CancelledError | GeneratorExit | RuntimeError | OtherException _ => false
  end.

(** What leaves [Task.__step] when the code of the task ends as [o]. *)
Definition step_result (o : outcome) : result unit :=
  match o with
  | Failed e => if reraised_by_step e then Raise e else Return tt
  | Completed | Cancelled => Return tt
  end.

(** What the loop runs next: the step of a task outside agent.py in which
    its code ends as [o], or the step of a task of [shutdown_procedures]. *)
Inductive handle :=
| OpaqueEnds (i : nat) (o : outcome)
| ShutdownRuns (me : nat).

(** [run_forever] runs one handle.  [None]: no loop is running, or the task
    is not ready (it is done, or its [gather] is not).  An exception in the
    result is one that leaves [run_forever], whose [finally] clause then
    marks the loop as not running; the tasks that were waiting stay as they
    are. *)
Definition run_handle (h : handle) (w : world) : option (world * result unit) :=
  if loop_running w then
    match h with
    | OpaqueEnds i o =>
        match tasks w !! i with
        | Some {| t_coro := Opaque; t_status := Pending _ |} =>
            let w' := set_status i (Done o) w in
            match step_result o with
            | Return _ => Some (w', Return tt)
            | Raise e => Some (set_loop_running false w', Raise e)
            end
        | _ => None
        end
    | ShutdownRuns me =>
        match sd_start me w with
        | Some w' => Some (w', Return tt)
        | None =>
            match sd_resume me w with
            | Some w' => Some (w', Return tt)
            | None => None
            end
        end
    end
  else None.

(** ** The [retrieve] flag as a Python value *)

(** [retrieve] has no annotation: the values line 102 accepts without a
    [TypeError] are bools and ints. *)
Inductive flag :=
| FlagBool (b : bool)
| FlagInt (n : Z).

(** The number a bool or an int counts as ([True] is 1, [False] is 0). *)
Definition flag_number (v : flag) : Z :=
  match v with
  | FlagBool b => Z.b2z b
  | FlagInt n => n
  end.

(** [True & v]: a bool for a bool, an int for an int. *)
Definition true_and (v : flag) : flag :=
  match v with
  | FlagBool b => FlagBool (true && b)
  | FlagInt n => FlagInt (Z.land 1 n)
  end.

(** [a == b] between bools and ints. *)
Definition flag_eq (a b : flag) : bool := (flag_number a =? flag_number b)%Z.

(** Line 102 for a flag of either kind. *)
Definition retrieve_condition_of (base_dir : path_state) (v : flag) : bool :=
  let a := FlagBool (is_base_dir_not_empty base_dir) in
  let m := true_and v in
  flag_eq a m && flag_eq m (FlagBool true).

(** ** [HiveAgent.run] *)

(** A call into code outside agent.py that ends as [r]. *)
Definition outside {A} (r : result A) : M A := fun w => (w, r).

(** The loop object [asyncio.get_event_loop()] returns, as
    [run_until_complete] looks at it. *)
Record event_loop := {
  is_closed : bool;                   (* loop.is_closed() *)
  is_running : bool;                  (* loop.is_running() *)
}.

Definition runtime_error (msg : string) : exc :=
  {| exc_type := RuntimeError; exc_str := msg |}.

(** [BaseEventLoop._check_closed] (asyncio/base_events.py). *)
Definition check_closed (l : event_loop) : M unit :=
  fun w =>
    if is_closed l
    then (w, Raise (runtime_error "Event loop is closed"))
    else (w, Return tt).

(** [BaseEventLoop._check_running]; [loop_running] of the process is
    [events._get_running_loop() is not None]. *)
Definition check_running (l : event_loop) : M unit :=
  fun w =>
    if is_running l
    then (w, Raise (runtime_error "This event loop is already running"))
    else if loop_running w
    then (w, Raise (runtime_error
                      "Cannot run the event loop while another loop is running"))
    else (w, Return tt).

(** [loop.run_until_complete(coro)]: [_check_closed], then [_check_running],
    then the loop runs until [coro] is done, and the result or the exception
    of [coro] is that of the call.  What other tasks do meanwhile is not part
    of this function; the task that wraps [coro] is done when the call
    returns and is not entered in [tasks]; and the loop is taken to run
    until [coro] is done: it is not stopped before (agent.py never calls
    [stop]) and no other task raises [KeyboardInterrupt] or [SystemExit]
    (for which see [run_handle]); the call would otherwise raise with
    [coro] left suspended. *)
Definition run_until_complete {A} (l : event_loop) (coro : M A) : M A :=
  check_closed l ;;;
  check_running l ;;;
  (fun w =>
     match coro (set_loop_running true w) with
     | (w', r) => (set_loop_running false w', r)
     end).

(** Lines 175-182; [get_event_loop] is how [asyncio.get_event_loop()]
    ends. *)
Definition run (get_event_loop : result event_loop) (u : uvicorn) : M unit :=
  try_except_Exception
    (loop <-- outside get_event_loop ;;
     run_until_complete loop (run_server u))
    (fun e =>
       logging ERROR
         ("An error occurred in the main event loop: " +:+ exc_str e)).

(** ** Construction: optional dependencies, wallet, CORS and signals *)

(** The keyword arguments of [CORSMiddleware]. *)
Record cors := {
  allow_origins : list string;
  allow_credentials : bool;
  allow_methods : list string;
  allow_headers : list string;
}.

(** The attribute [self.wallet_store]: not assigned yet, [None], or a
    [WalletStore], with or without the wallet of [add_wallet]. *)
Inductive wallet_attr :=
| WalletUnset
| WalletNone
| WalletStore (wallet_added : bool).

(** What construction reads and writes besides the agent: the dictionary
    [self.optional_dependencies], [self.wallet_store], the middleware of
    [self.app], whether the routes are set up, the handlers installed with
    [signal.signal] (by signal number; the value is the agent whose
    [__signal_handler] is installed; the table belongs to the process, not
    to one agent) and the warnings logged. *)
Record host := {
  optional_dependencies : gmap string bool;
  wallet_store : wallet_attr;
  middleware : list cors;
  routes_set : bool;
  signal_table : gmap Z nat;
  warnings : list string;
}.

Definition set_optional_dependencies
    (f : gmap string bool -> gmap string bool) (h : host) : host :=
  {| optional_dependencies := f (optional_dependencies h);
     wallet_store := wallet_store h; middleware := middleware h;
     routes_set := routes_set h; signal_table := signal_table h;
     warnings := warnings h |}.

Definition set_wallet_store (v : wallet_attr) (h : host) : host :=
  {| optional_dependencies := optional_dependencies h;
     wallet_store := v; middleware := middleware h;
     routes_set := routes_set h; signal_table := signal_table h;
     warnings := warnings h |}.

Definition add_middleware (c : cors) (h : host) : host :=
  {| optional_dependencies := optional_dependencies h;
     wallet_store := wallet_store h; middleware := middleware h ++ [c];
     routes_set := routes_set h; signal_table := signal_table h;
     warnings := warnings h |}.

Definition set_routes_set (b : bool) (h : host) : host :=
  {| optional_dependencies := optional_dependencies h;
     wallet_store := wallet_store h; middleware := middleware h;
     routes_set := b; signal_table := signal_table h;
     warnings := warnings h |}.

Definition set_signal_table (f : gmap Z nat -> gmap Z nat) (h : host) : host :=
  {| optional_dependencies := optional_dependencies h;
     wallet_store := wallet_store h; middleware := middleware h;
     routes_set := routes_set h; signal_table := f (signal_table h);
     warnings := warnings h |}.

Definition add_warning (msg : string) (h : host) : host :=
  {| optional_dependencies := optional_dependencies h;
     wallet_store := wallet_store h; middleware := middleware h;
     routes_set := routes_set h; signal_table := signal_table h;
     warnings := warnings h ++ [msg] |}.

(** Code that changes a [host] and may raise. *)
Definition HostM (A : Type) : Type := host -> host * result A.

Definition h_ret {A} (a : A) : HostM A := fun h => (h, Return a).

Definition h_raise {A} (e : exc) : HostM A := fun h => (h, Raise e).

Definition h_bind {A B} (m : HostM A) (k : A -> HostM B) : HostM B :=
  fun h =>
    match m h with
    | (h', Return a) => k a h'
    | (h', Raise e) => (h', Raise e)
    end.

Notation "m ;;> k" := (h_bind m (fun _ => k))
  (at level 100, right associativity).

Definition h_modify (f : host -> host) : HostM unit := fun h => (f h, Return tt).

(** A call into code outside agent.py that ends as [r]. *)
Definition h_outside {A} (r : result A) : HostM A := fun h => (h, r).

(** [try: body  except C: handler], [catches] telling the instances of
    [C]. *)
Definition h_try_except {A} (catches : exc -> bool) (body handler : HostM A) : HostM A :=
  fun h =>
    match body h with
    | (h', Return a) => (h', Return a)
    | (h', Raise e) => if catches e then handler h' else (h', Raise e)
    end.

(** [ImportError] and its built-in subclass. *)
Definition isinstance_ImportError (e : exc) : bool :=
  match exc_type e with
  | OtherException name =>
      String.eqb name "ImportError" || String.eqb name "ModuleNotFoundError"
  | _ => false
  end.

(** Lines 73-79; [import_web3] is how [from web3 import Web3] ends. *)
Definition _check_optional_dependencies (import_web3 : result unit) : HostM unit :=
  h_try_except isinstance_ImportError
    (h_outside import_web3 ;;>
     h_modify (set_optional_dependencies (insert "web3" true)))
    (h_modify (set_optional_dependencies (insert "web3" false))).

(** Truth value of [d.get(key)]: a missing key gives [None], which is
    false. *)
Definition dict_get_truthy (d : gmap string bool) (key : string) : bool :=
  match d !! key with
  | Some b => b
  | None => false
  end.

(** How the calls into [hive_agent.wallet] end. *)
Record wallet_calls := {
  import_WalletStore : result unit;   (* from hive_agent.wallet import WalletStore *)
  new_WalletStore : result unit;      (* WalletStore() *)
  add_wallet : result unit;           (* self.wallet_store.add_wallet() *)
}.

(** Lines 118-127 of [__setup]. *)
Definition setup_wallet (c : wallet_calls) : HostM unit :=
  fun h =>
    if dict_get_truthy (optional_dependencies h) "web3"
    then (h_outside (import_WalletStore c) ;;>
          h_outside (new_WalletStore c) ;;>
          h_modify (set_wallet_store (WalletStore false)) ;;>
          h_outside (add_wallet c) ;;>
          h_modify (set_wallet_store (WalletStore true))) h
    else (h_modify (set_wallet_store WalletNone) ;;>
          h_modify (add_warning
            "'web3' extras not installed. Web3-related functionality will not be available.")) h.

Definition cors_allow_all : cors :=
  {| allow_origins := ["*"]; allow_credentials := true;
     allow_methods := ["*"]; allow_headers := ["*"] |}.

(** Lines 143-159; [environment] is what
    [self.config.get("environment", "type")] returns ([None] for no value)
    and [add] how [self.app.add_middleware] ends. *)
Definition configure_cors (environment : option string) (add : result unit)
    : HostM unit :=
  match environment with
  | Some env =>
      if String.eqb env "dev"
      then h_modify (add_warning
             "Running in development mode - allowing CORS for all origins") ;;>
           h_outside add ;;>
           h_modify (add_middleware cors_allow_all)
      else h_ret tt
  | None => h_ret tt
  end.

Definition SIGINT : Z := 2.
Definition SIGTERM : Z := 15.

(** [signal.signal(signum, self.__signal_handler)] for the agent [self]: it
    works in the main thread only. *)
Definition signal_signal (main_thread : bool) (signum : Z) (self : nat) : HostM unit :=
  if main_thread
  then h_modify (set_signal_table (insert signum self))
  else h_raise {| exc_type := OtherException "ValueError";
                  exc_str := "signal only works in main thread of the main interpreter" |}.

(** What [__setup_server] depends on. *)
Record server_setup := {
  environment : option string;
  add_middleware_result : result unit;
  setup_routes_result : result unit;  (* setup_routes(self.app, self.__agent) *)
  main_thread : bool;
}.

(** Lines 135-141. *)
Definition setup_server (self : nat) (s : server_setup) : HostM unit :=
  configure_cors (environment s) (add_middleware_result s) ;;>
  h_outside (setup_routes_result s) ;;>
  h_modify (set_routes_set true) ;;>
  signal_signal (main_thread s) SIGINT self ;;>
  signal_signal (main_thread s) SIGTERM self.

(** The first exception raised in the [try] block of [run_server], if any,
    and the exception raised by [close] in [__cleanup], if any. *)
Definition first_failure (u : uvicorn) : option exc :=
  match Config_result u with
  | Raise e => Some e
  | Return _ =>
      match Server_result u with
      | Raise e => Some e
      | Return _ =>
          match serve_result u with
          | Raise e => Some e
          | Return _ => None
          end
      end
  end.

Definition close_failure (w : world) : option exc :=
  match db_session w with
  | Some s =>
      match close_result s with
      | Raise e => Some e
      | Return _ => None
      end
  | None => None
  end.

(** An exception that [except Exception] lets through. *)
Definition escapes (o : option exc) : option exc :=
  match o with
  | Some e => if isinstance_Exception e then None else Some e
  | None => None
  end.

Definition server_error (e : exc) : log_record :=
  {| record_level := ERROR;
     record_msg := "unexpected error while running the server: " +:+ exc_str e |}.

Definition main_loop_error (e : exc) : log_record :=
  {| record_level := ERROR;
     record_msg := "An error occurred in the main event loop: " +:+ exc_str e |}.

(** What [__cleanup] logs before its last record. *)
Definition cleanup_records (w : world) : list log_record :=
  match db_session w with
  | None => []
  | Some s =>
      match close_result s with
      | Return _ => [{| record_level := DEBUG;
                        record_msg := "database connection closed" |}]
      | Raise e => if isinstance_Exception e then [cleanup_error e] else []
      end
  end.

(** ** States the process can reach *)

Definition reachable (w : world) : Prop := steps init_world w.

(** The task [a] is suspended in, or has left, the [gather] of
    [shutdown_procedures] on the tasks [ts]. *)
Definition waits_for (w : world) (a : nat) (ts : list nat) : Prop :=
  exists s, tasks w !! a =
    Some {| t_coro := ShutdownProcedures (SdWaiting ts); t_status := s |}.

(** What holds of the tasks [ts] that the task [a] of [shutdown_procedures]
    waits for: each exists and is not [a]; none is still a fresh task of
    [shutdown_procedures] (it has run, or its cancellation was requested
    before it could); and none waits for [a] in return. *)
Definition wait_ok (w : world) (a : nat) (ts : list nat) : Prop :=
  forall i, In i ts ->
    i < length (tasks w) /\
    i <> a /\
    tasks w !! i <> Some shutdown_task /\
    forall ts', waits_for w i ts' -> ~ In a ts'.

Definition wait_inv (w : world) : Prop :=
  forall a ts, waits_for w a ts -> wait_ok w a ts.

(** The task [me] ran [shutdown_procedures] to its return, and the tasks it
    waited for (none when it did not suspend) are done. *)
Definition completed_shutdown (w : world) (me : nat) : Prop :=
  exists pc,
    tasks w !! me =
      Some {| t_coro := ShutdownProcedures pc; t_status := Done Completed |} /\
    forall i,
      In i (match pc with SdWaiting ts => ts | SdCreated => [] end) ->
      task_done w i = true.

(** A run used as an example: the loop starts, three tasks are created,
    SIGTERM arrives and the task of [shutdown_procedures] runs up to its
    [await] ([scenario_waiting]); then the three tasks end cancelled and it
    resumes ([scenario_end]). *)
Definition scenario_signalled : world :=
  fst (signal_handler SIGTERM
         (fst (asyncio_create_task Opaque
            (fst (asyncio_create_task Opaque
               (fst (asyncio_create_task Opaque
                  (set_loop_running true init_world)))))))).

Definition scenario_waiting : world := shutdown_begin 3 scenario_signalled.

Definition scenario_end : world :=
  shutdown_finish 3
    (set_status 2 (Done Cancelled)
       (set_status 1 (Done Cancelled)
          (set_status 0 (Done Cancelled) scenario_waiting))).

(** Whether [configure_cors] takes its branch. *)
Definition is_dev (environment : option string) : bool :=
  match environment with
  | Some env => String.eqb env "dev"
  | None => false
  end.

Definition web3_warning : string :=
  "'web3' extras not installed. Web3-related functionality will not be available.".

(** * Properties *)

(** ** Provider and tool selection in [__setup] *)

(** The fourth condition of the chain holds for every model name. *)
Lemma mixtral_condition_true (model : string) :
  Py.truthy (Py.or (Py.Str "mixtral") (Py.is_in "mistral" model)) = true.
Proof. reflexivity. Qed.

Lemma select_branch_not_else (model : string) :
  select_branch model <> ElseDefault.
Proof.
  unfold select_branch.
  destruct (Py.truthy (Py.is_in "gpt" model)); [discriminate|].
  destruct (Py.truthy (Py.is_in "claude" model)); [discriminate|].
  destruct (Py.truthy (Py.is_in "llama" model)); [discriminate|].
  rewrite mixtral_condition_true. discriminate.
Qed.

Lemma is_base_dir_not_empty_spec (base_dir : path_state) :
  is_base_dir_not_empty base_dir = true <->
  (exists n, base_dir = RegularFile n /\ (0 < n)%Z) \/
  (exists e es, base_dir = Directory (e :: es)).
Proof.
  unfold is_base_dir_not_empty.
  destruct base_dir as [|n|[|e es]|]; simpl; split;
    try discriminate; try (intros [[? [? ?]]|[? [? ?]]]; discriminate).
  - intros H. left. exists n. split; [reflexivity|]. now apply Z.ltb_lt.
  - intros [[m [Hm Hlt]]|[? [? ?]]]; [|discriminate].
    injection Hm as <-. now apply Z.ltb_lt.
  - intros _. right. eauto.
  - reflexivity.
Qed.

Lemma retrieve_condition_spec (base_dir : path_state) (r : bool) :
  retrieve_condition base_dir r = true <->
  r = true /\ is_base_dir_not_empty base_dir = true.
Proof.
  unfold retrieve_condition.
  destruct (is_base_dir_not_empty base_dir), r; simpl; intuition congruence.
Qed.

Section SetupFacts.

Variables Func Tool Retriever : Type.
Variable from_defaults : Func -> Tool.
Variable basic_retrieve : list Tool -> list string -> Retriever.
Variables get_db_schemas text_2_sql : Func.

(** The tool list of line 88 always holds the two system tools. *)
Lemma all_tools_not_nil (fs : list Func) :
  _tools_from_funcs from_defaults fs ++
  _tools_from_funcs from_defaults [get_db_schemas; text_2_sql] <> [].
Proof. intros H. apply app_eq_nil in H as [_ H]. discriminate. Qed.

(** C4: the retrieval wrapper is attached, and the tool list passed to the
    agent emptied, exactly when the retrieve flag is true and
    [files.BASE_DIR] exists and is not empty (a regular file of positive
    size or a directory with an entry); in every other case the agent gets
    the custom tools followed by the system tools, and no tool retriever. *)
Theorem setup_tool_retriever_iff (self : agent_args Func) (base_dir : path_state) :
  let call :=
    setup from_defaults basic_retrieve get_db_schemas text_2_sql
      self base_dir in
  let all_tools :=
    _tools_from_funcs from_defaults (functions self) ++
    _tools_from_funcs from_defaults [get_db_schemas; text_2_sql] in
  let attach :=
    retrieve self = true /\
    ((exists n, base_dir = RegularFile n /\ (0 < n)%Z) \/
     (exists e es, base_dir = Directory (e :: es))) in
  (call_tool_retriever call <> None <-> attach) /\
  (call_tools call = [] <-> attach) /\
  (attach ->
     call_tool_retriever call =
       Some (basic_retrieve all_tools (required_exts self)) /\
     call_tools call = []) /\
  (~ attach ->
     call_tool_retriever call = None /\ call_tools call = all_tools).
Proof.
  intros call all_tools attach.
  assert (Hc : retrieve_condition base_dir (retrieve self) = true <-> attach).
  { rewrite retrieve_condition_spec, is_base_dir_not_empty_spec. reflexivity. }
  subst call. unfold setup. fold all_tools.
  destruct (retrieve_condition base_dir (retrieve self)) eqn:E; simpl.
  - assert (Ha : attach) by (apply Hc; reflexivity).
    split; [|split; [|split]].
    + split; [intros _; exact Ha | discriminate].
    + split; [intros _; exact Ha | reflexivity].
    + intros _. split; reflexivity.
    + intros Hn. contradiction.
  - assert (Ha : ~ attach) by (intros Ha; apply Hc in Ha; discriminate).
    assert (Hne : all_tools <> []) by apply all_tools_not_nil.
    split; [|split; [|split]].
    + split; [intros H; contradiction | intros H; contradiction].
    + split; [intros H; contradiction | intros H; contradiction].
    + intros H. contradiction.
    + intros _. split; reflexivity.
Qed.

(** C10: a model name without "gpt", "claude" and "llama" selects the
    Mistral provider, whether or not it contains "mixtral" or "mistral";
    the final [else] arm is taken for no model name. *)
Theorem setup_mistral_fallthrough (self : agent_args Func) (base_dir : path_state) :
  Py.contains "gpt" (config_get_model self) = false ->
  Py.contains "claude" (config_get_model self) = false ->
  Py.contains "llama" (config_get_model self) = false ->
  select_branch (config_get_model self) = ElifMistral /\
  call_llm (setup from_defaults basic_retrieve get_db_schemas text_2_sql
              self base_dir) = MistralLLM /\
  (forall model : string, select_branch model <> ElseDefault).
Proof.
  intros Hg Hc Hl.
  assert (Hb : select_branch (config_get_model self) = ElifMistral).
  { unfold select_branch, Py.is_in, Py.truthy at 1 2 3.
    rewrite Hg, Hc, Hl. reflexivity. }
  split; [exact Hb|]. split; [|exact select_branch_not_else].
  unfold setup.
  destruct (retrieve_condition base_dir (retrieve self)); simpl;
    rewrite Hb; reflexivity.
Qed.

End SetupFacts.

(** A model name with none of the five substrings. *)
Lemma setup_mistral_fallthrough_witness :
  let self := {| functions := @nil unit; instruction := "";
                 retrieve := false; required_exts := [".md"];
                 config_model := Some "gemini-pro" |} in
  Py.contains "gpt" (config_get_model self) = false /\
  Py.contains "claude" (config_get_model self) = false /\
  Py.contains "llama" (config_get_model self) = false /\
  Py.contains "mixtral" (config_get_model self) = false /\
  Py.contains "mistral" (config_get_model self) = false /\
  select_branch (config_get_model self) = ElifMistral /\
  call_llm (setup (fun x => x) (fun _ _ => tt) tt tt self Missing)
    = MistralLLM /\
  (forall model : string, select_branch model <> ElseDefault).
Proof.
  do 5 (split; [reflexivity|]).
  apply (setup_mistral_fallthrough unit unit unit (fun x => x) (fun _ _ => tt)
           tt tt _ Missing); reflexivity.
Defined.

(** ** [__cleanup] and [run_server] *)

(** What [__cleanup] does for each way [close] can end. *)
Lemma cleanup_attached (w : world) (s : session) :
  db_session w = Some s ->
  cleanup w =
    let w1 := add_call (Leave "db_session.close" (is_return (close_result s)))
                (add_call (Enter "db_session.close")
                   (add_call (Enter "__cleanup") w)) in
    match close_result s with
    | Return _ =>
        (add_call (Leave "__cleanup" true)
           (add_log cleanup_completed
              (add_log {| record_level := DEBUG;
                          record_msg := "database connection closed" |} w1)),
         Return tt)
    | Raise e =>
        if isinstance_Exception e
        then (add_call (Leave "__cleanup" true)
                (add_log cleanup_completed (add_log (cleanup_error e) w1)),
              Return tt)
        else (add_call (Leave "__cleanup" false)
                (add_log cleanup_completed w1), Raise e)
    end.
Proof.
  intros Hs.
  unfold cleanup, traced, try_finally, try_except_Exception, bind,
    get_db_session, external, logging, modify.
  cbn [db_session add_call]. rewrite Hs.
  destruct (close_result s) as [[]|e]; cbn [is_return].
  - reflexivity.
  - destruct (isinstance_Exception e); reflexivity.
Qed.

Lemma cleanup_detached (w : world) :
  db_session w = None ->
  cleanup w =
    (add_call (Leave "__cleanup" true)
       (add_log cleanup_completed (add_call (Enter "__cleanup") w)),
     Return tt).
Proof.
  intros Hs.
  unfold cleanup, traced, try_finally, try_except_Exception, bind,
    get_db_session, ret, logging, modify.
  cbn [db_session add_call]. rewrite Hs. reflexivity.
Qed.

(** C6: without a [db_session] attribute [__cleanup] makes no call to
    [close], returns without an exception and logs the completion message. *)
Theorem cleanup_without_db_session (w : world) :
  db_session w = None ->
  snd (cleanup w) = Return tt /\
  log (fst (cleanup w)) = log w ++ [cleanup_completed] /\
  calls (fst (cleanup w)) =
    calls w ++ [Enter "__cleanup"; Leave "__cleanup" true] /\
  db_session (fst (cleanup w)) = None.
Proof.
  intros Hs. rewrite (cleanup_detached w Hs). cbn.
  rewrite <- app_assoc. auto.
Qed.

Lemma cleanup_without_db_session_witness :
  db_session init_world = None /\
  snd (cleanup init_world) = Return tt /\
  log (fst (cleanup init_world)) = log init_world ++ [cleanup_completed] /\
  calls (fst (cleanup init_world)) =
    calls init_world ++ [Enter "__cleanup"; Leave "__cleanup" true] /\
  db_session (fst (cleanup init_world)) = None.
Proof.
  split; [reflexivity|].
  apply (cleanup_without_db_session init_world). reflexivity.
Defined.

(** C5, amended: when [db_session] is attached and [close] raises
    an instance of [Exception], [__cleanup] logs the failure, then the
    completion message, and returns without an exception.  When [close]
    raises an exception that is not an instance of [Exception], the
    completion message is still logged, the failure is not, and the exception
    leaves [__cleanup]. *)
Theorem cleanup_close_raises (w : world) (s : session) (e : exc) :
  db_session w = Some s ->
  close_result s = Raise e ->
  (isinstance_Exception e = true ->
     snd (cleanup w) = Return tt /\
     log (fst (cleanup w)) = log w ++ [cleanup_error e; cleanup_completed]) /\
  (isinstance_Exception e = false ->
     snd (cleanup w) = Raise e /\
     log (fst (cleanup w)) = log w ++ [cleanup_completed]).
Proof.
  intros Hs He. rewrite (cleanup_attached w s Hs). cbn zeta. rewrite He.
  split; intros Hi; rewrite Hi; cbn.
  - rewrite <- app_assoc. auto.
  - auto.
Qed.

Lemma cleanup_close_raises_witness :
  let e := {| exc_type := OtherException "OperationalError";
              exc_str := "connection lost" |} in
  let s := {| close_result := Raise e |} in
  let w := set_db_session (Some s) init_world in
  db_session w = Some s /\
  close_result s = Raise e /\
  isinstance_Exception e = true /\
  snd (cleanup w) = Return tt /\
  log (fst (cleanup w)) = log w ++ [cleanup_error e; cleanup_completed].
Proof.
  intros e s w. split; [reflexivity|]. split; [reflexivity|].
  split; [reflexivity|].
  destruct (cleanup_close_raises w s e eq_refl eq_refl) as [H _].
  exact (H eq_refl).
Defined.

(** C5, counterexample: [asyncio.CancelledError] raised by [close] is not
    caught by [except Exception]; it leaves [__cleanup] and no failure is
    logged. *)
Lemma cleanup_propagates_CancelledError :
  let e := {| exc_type := CancelledError; exc_str := "" |} in
  let s := {| close_result := Raise e |} in
  let w := set_db_session (Some s) init_world in
  db_session w = Some s /\
  close_result s = Raise e /\
  snd (cleanup w) = Raise e /\
  log (fst (cleanup w)) = [cleanup_completed].
Proof. repeat split. Qed.

(** [__cleanup] touches neither the tasks nor the shutdown event, and adds
    its own bracket, around that of [close] if any, to [calls]. *)
Lemma cleanup_calls (w : world) :
  exists inner b,
    calls (fst (cleanup w)) =
      calls w ++ Enter "__cleanup" :: inner ++ [Leave "__cleanup" b] /\
    (inner = [] \/
     exists c, inner = [Enter "db_session.close"; Leave "db_session.close" c]).
Proof.
  destruct (db_session w) as [s|] eqn:Hs.
  - rewrite (cleanup_attached w s Hs). cbn zeta.
    exists [Enter "db_session.close";
            Leave "db_session.close" (is_return (close_result s))].
    destruct (close_result s) as [[]|e]; [|destruct (isinstance_Exception e)];
      eexists; (split; [cbn; rewrite <- !app_assoc; reflexivity | eauto]).
  - rewrite (cleanup_detached w Hs). exists [], true. cbn.
    rewrite <- app_assoc. auto.
Qed.

Lemma cleanup_frame (w : world) :
  tasks (fst (cleanup w)) = tasks w /\
  shutdown_event (fst (cleanup w)) = shutdown_event w /\
  loop_running (fst (cleanup w)) = loop_running w.
Proof.
  destruct (db_session w) as [s|] eqn:Hs.
  - rewrite (cleanup_attached w s Hs). cbn zeta.
    destruct (close_result s) as [[]|e]; [|destruct (isinstance_Exception e)];
      cbn; auto.
  - rewrite (cleanup_detached w Hs). cbn. auto.
Qed.

Lemma run_server_unfold (u : uvicorn) (w : world) :
  fst (run_server u w) = fst (cleanup (fst (serve_guarded u w))).
Proof.
  unfold run_server, try_finally.
  destruct (serve_guarded u w) as [w1 r]. cbn [fst].
  destruct (cleanup w1) as [w2 [[]|e]]; reflexivity.
Qed.

Lemma serve_guarded_frame (u : uvicorn) (w : world) :
  tasks (fst (serve_guarded u w)) = tasks w /\
  shutdown_event (fst (serve_guarded u w)) = shutdown_event w /\
  db_session (fst (serve_guarded u w)) = db_session w /\
  loop_running (fst (serve_guarded u w)) = loop_running w.
Proof.
  unfold serve_guarded, try_except_Exception, bind, external, logging, modify.
  destruct (Config_result u) as [[]|e1]; cbn;
    [destruct (Server_result u) as [[]|e2]; cbn;
       [destruct (serve_result u) as [[]|e3]; cbn;
          [|destruct (isinstance_Exception e3)]
       |destruct (isinstance_Exception e2)]
    |destruct (isinstance_Exception e1)]; cbn; auto.
Qed.

(** The calls made by the [try] block: the serving loop is entered only
    after both constructors returned, and has been left when the block
    ends. *)
Lemma serve_guarded_calls (u : uvicorn) (w : world) :
  exists before,
    calls (fst (serve_guarded u w)) = calls w ++ before /\
    ~ In (Enter "__cleanup") before /\
    (In (Enter "server.serve") before <->
     Config_result u = Return tt /\ Server_result u = Return tt) /\
    (In (Enter "server.serve") before ->
     exists pre,
       before = pre ++ [Enter "server.serve";
                        Leave "server.serve" (is_return (serve_result u))]).
Proof.
  unfold serve_guarded, try_except_Exception, bind, external, logging, modify.
  destruct (Config_result u) as [[]|e1]; cbn.
  - destruct (Server_result u) as [[]|e2]; cbn.
    + exists [Enter "uvicorn.Config"; Leave "uvicorn.Config" true;
              Enter "uvicorn.Server"; Leave "uvicorn.Server" true;
              Enter "server.serve";
              Leave "server.serve" (is_return (serve_result u))].
      split; [|split; [|split]].
      * destruct (serve_result u) as [[]|e3];
          [|destruct (isinstance_Exception e3)];
          cbn; rewrite <- !app_assoc; reflexivity.
      * cbn. intuition discriminate.
      * cbn. intuition.
      * intros _.
        exists [Enter "uvicorn.Config"; Leave "uvicorn.Config" true;
                Enter "uvicorn.Server"; Leave "uvicorn.Server" true].
        reflexivity.
    + exists [Enter "uvicorn.Config"; Leave "uvicorn.Config" true;
              Enter "uvicorn.Server"; Leave "uvicorn.Server" false].
      split; [|split; [|split]].
      * destruct (isinstance_Exception e2); cbn;
          rewrite <- !app_assoc; reflexivity.
      * cbn. intuition discriminate.
      * cbn. intuition discriminate.
      * cbn. intuition discriminate.
  - exists [Enter "uvicorn.Config"; Leave "uvicorn.Config" false].
    split; [|split; [|split]].
    + destruct (isinstance_Exception e1); cbn;
        rewrite <- !app_assoc; reflexivity.
    + cbn. intuition discriminate.
    + cbn. intuition discriminate.
    + cbn. intuition discriminate.
Qed.

(** C2: every execution of [run_server] enters [__cleanup] exactly once, and
    only after the serving loop has been left, however [serve] ends (and
    also when the server could not be constructed). *)
Theorem run_server_cleanup_once (u : uvicorn) (w : world) :
  exists before after,
    calls (fst (run_server u w)) =
      calls w ++ before ++ Enter "__cleanup" :: after /\
    ~ In (Enter "__cleanup") before /\
    ~ In (Enter "__cleanup") after /\
    ~ In (Enter "server.serve") after /\
    (forall b, ~ In (Leave "server.serve" b) after) /\
    (In (Enter "server.serve") before <->
     Config_result u = Return tt /\ Server_result u = Return tt) /\
    (In (Enter "server.serve") before ->
     exists pre,
       before = pre ++ [Enter "server.serve";
                        Leave "server.serve" (is_return (serve_result u))]).
Proof.
  destruct (serve_guarded_calls u w) as (before & Hb & Hnc & Hiff & Hlast).
  destruct (cleanup_calls (fst (serve_guarded u w))) as (inner & b & Hc & Hin).
  exists before, (inner ++ [Leave "__cleanup" b]).
  rewrite run_server_unfold, Hc, Hb, <- app_assoc.
  split; [reflexivity|]. split; [exact Hnc|].
  assert (Hafter : forall c, In c (inner ++ [Leave "__cleanup" b]) ->
            c = Leave "__cleanup" b \/ c = Enter "db_session.close" \/
            exists d, c = Leave "db_session.close" d).
  { intros c Hmem. apply in_app_or in Hmem as [Hmem|[<-|[]]]; [|auto].
    destruct Hin as [->|[d ->]]; [destruct Hmem|].
    destruct Hmem as [<-|[<-|[]]]; eauto. }
  split; [intros Hmem; apply Hafter in Hmem as [H|[H|[d H]]]; discriminate|].
  split; [intros Hmem; apply Hafter in Hmem as [H|[H|[d H]]]; discriminate|].
  split; [intros c Hmem; apply Hafter in Hmem as [H|[H|[d H]]]; discriminate|].
  split; [exact Hiff | exact Hlast].
Qed.

(** The serving loop raises at once: [__cleanup] still runs, once, and logs
    its completion; the error is logged and does not leave [run_server]. *)
Example run_server_serve_raises :
  let e := {| exc_type := OtherException "OSError";
              exc_str := "address already in use" |} in
  let u := {| Config_result := Return tt; Server_result := Return tt;
              serve_result := Raise e |} in
  snd (run_server u init_world) = Return tt /\
  log (fst (run_server u init_world)) =
    [{| record_level := ERROR;
        record_msg := "unexpected error while running the server: " +:+
                      "address already in use" |};
     cleanup_completed] /\
  calls (fst (run_server u init_world)) =
    [Enter "uvicorn.Config"; Leave "uvicorn.Config" true;
     Enter "uvicorn.Server"; Leave "uvicorn.Server" true;
     Enter "server.serve"; Leave "server.serve" false;
     Enter "__cleanup"; Leave "__cleanup" true].
Proof. repeat split. Qed.

(** A cancellation delivered at [await server.serve()] is not caught by
    [except Exception]: nothing is logged as an error, [__cleanup] runs, and
    the cancellation leaves [run_server]. *)
Example run_server_serve_cancelled :
  let e := {| exc_type := CancelledError; exc_str := "" |} in
  let u := {| Config_result := Return tt; Server_result := Return tt;
              serve_result := Raise e |} in
  snd (run_server u init_world) = Raise e /\
  log (fst (run_server u init_world)) = [cleanup_completed] /\
  calls (fst (run_server u init_world)) =
    [Enter "uvicorn.Config"; Leave "uvicorn.Config" true;
     Enter "uvicorn.Server"; Leave "uvicorn.Server" true;
     Enter "server.serve"; Leave "server.serve" false;
     Enter "__cleanup"; Leave "__cleanup" true].
Proof. repeat split. Qed.

(** ** Tasks: enumeration and cancellation *)

Lemma request_cancel_coro (t : task) : t_coro (request_cancel t) = t_coro t.
Proof. unfold request_cancel. destruct (t_status t); reflexivity. Qed.

Lemma request_cancel_done (t : task) : is_done (request_cancel t) = is_done t.
Proof. unfold request_cancel, is_done. destruct (t_status t) eqn:E; cbn; [reflexivity|]. now rewrite E. Qed.

Lemma request_cancel_pending (k : coro) (c : bool) :
  request_cancel {| t_coro := k; t_status := Pending c |} =
  {| t_coro := k; t_status := Pending true |}.
Proof. reflexivity. Qed.

Lemma request_cancel_of_done (t : task) : is_done t = true -> request_cancel t = t.
Proof. unfold request_cancel, is_done. destruct (t_status t); [discriminate|reflexivity]. Qed.

Lemma request_cancel_idem (t : task) :
  request_cancel (request_cancel t) = request_cancel t.
Proof. destruct t as [k [c|o]]; reflexivity. Qed.

(** [all_tasks] holds exactly the indices of the tasks that are pending. *)
Lemma all_tasks_spec (w : world) (i : nat) :
  In i (all_tasks w) <->
  exists k c, tasks w !! i = Some {| t_coro := k; t_status := Pending c |}.
Proof.
  unfold all_tasks, task_done. rewrite filter_In, in_seq. split.
  - intros [[_ Hlt] Hnd]. cbn in Hlt.
    destruct (lookup_lt_is_Some_2 (tasks w) i Hlt) as [[k [c|o]] Ht];
      rewrite Ht in Hnd; [eauto | discriminate].
  - intros (k & c & Ht). split.
    + apply lookup_lt_Some in Ht. lia.
    + rewrite Ht. reflexivity.
Qed.

Lemma shutdown_enumerate_spec (me : nat) (w : world) (i : nat) :
  In i (shutdown_enumerate me w) <->
  i <> me /\
  exists k c, tasks w !! i = Some {| t_coro := k; t_status := Pending c |}.
Proof.
  unfold shutdown_enumerate. rewrite filter_In, all_tasks_spec.
  rewrite negb_true_iff, Nat.eqb_neq. tauto.
Qed.

Lemma shutdown_enumerate_NoDup (me : nat) (w : world) :
  List.NoDup (shutdown_enumerate me w).
Proof.
  unfold shutdown_enumerate, all_tasks.
  do 2 apply List.NoDup_filter. apply seq_NoDup.
Qed.


(** [cancel_all] requests the cancellation of the listed tasks and leaves
    every other task alone. *)
Lemma cancel_all_tasks (ts : list nat) (w : world) :
  tasks (cancel_all ts w) =
  fold_left (fun l i => alter request_cancel i l) ts (tasks w).
Proof.
  revert w. induction ts as [|i ts IH]; intros w; [reflexivity|].
  cbn. rewrite IH. reflexivity.
Qed.

Lemma cancel_all_other (ts : list nat) (w : world) :
  loop_running (cancel_all ts w) = loop_running w /\
  shutdown_event (cancel_all ts w) = shutdown_event w /\
  db_session (cancel_all ts w) = db_session w /\
  log (cancel_all ts w) = log w /\
  calls (cancel_all ts w) = calls w.
Proof.
  revert w. induction ts as [|i ts IH]; intros w; [cbn; auto|].
  cbn [cancel_all fold_left]. fold (cancel_all ts (task_cancel i w)).
  destruct (IH (task_cancel i w)) as (-> & -> & -> & -> & ->).
  cbn. auto.
Qed.

Lemma cancel_all_length (ts : list nat) (w : world) :
  length (tasks (cancel_all ts w)) = length (tasks w).
Proof.
  revert w. induction ts as [|i ts IH]; intros w; [reflexivity|].
  cbn [cancel_all fold_left]. fold (cancel_all ts (task_cancel i w)).
  rewrite IH. cbn. apply length_alter.
Qed.

Lemma cancel_all_lookup_notin (ts : list nat) (w : world) (j : nat) :
  ~ In j ts -> tasks (cancel_all ts w) !! j = tasks w !! j.
Proof.
  revert w. induction ts as [|i ts IH]; intros w Hin; [reflexivity|].
  cbn [cancel_all fold_left]. fold (cancel_all ts (task_cancel i w)).
  rewrite IH by (intros H; apply Hin; now right).
  cbn. apply list_lookup_alter_ne. intros ->. apply Hin. now left.
Qed.

Lemma cancel_all_lookup_in (ts : list nat) (w : world) (j : nat) :
  In j ts -> tasks (cancel_all ts w) !! j = request_cancel <$> tasks w !! j.
Proof.
  revert w. induction ts as [|i ts IH]; intros w Hin; [destruct Hin|].
  cbn [cancel_all fold_left]. fold (cancel_all ts (task_cancel i w)).
  destruct (in_dec Nat.eq_dec j ts) as [Hj|Hj].
  - rewrite (IH _ Hj). cbn. destruct (decide (i = j)) as [->|Hne].
    + rewrite list_lookup_alter_eq. destruct (tasks w !! j); cbn; [|reflexivity].
      now rewrite request_cancel_idem.
    + now rewrite list_lookup_alter_ne.
  - destruct Hin as [->|Hin]; [|contradiction].
    rewrite (cancel_all_lookup_notin _ _ _ Hj). cbn.
    apply list_lookup_alter_eq.
Qed.

(** Either way, an entry after [cancel_all] is the old one, possibly with a
    cancellation requested. *)
Lemma cancel_all_lookup (ts : list nat) (w : world) (j : nat) (t : task) :
  tasks w !! j = Some t ->
  tasks (cancel_all ts w) !! j = Some t \/
  tasks (cancel_all ts w) !! j = Some (request_cancel t).
Proof.
  intros Ht. destruct (in_dec Nat.eq_dec j ts) as [Hj|Hj].
  - right. rewrite (cancel_all_lookup_in _ _ _ Hj), Ht. reflexivity.
  - left. now rewrite (cancel_all_lookup_notin _ _ _ Hj).
Qed.

Lemma task_done_cancel_all (ts : list nat) (w : world) (j : nat) :
  task_done (cancel_all ts w) j = task_done w j.
Proof.
  unfold task_done. destruct (tasks w !! j) as [t|] eqn:Ht.
  - destruct (cancel_all_lookup ts w j t Ht) as [-> | ->];
      [reflexivity | apply request_cancel_done].
  - apply lookup_ge_None in Ht.
    rewrite (lookup_ge_None_2 (tasks (cancel_all ts w)) j); [reflexivity|].
    rewrite cancel_all_length. exact Ht.
Qed.

(** ** What the operations do to an entry of the task list *)

Lemma set_status_lookup_eq (i : nat) (s : status) (w : world) :
  tasks (set_status i s w) !! i =
  (fun t => {| t_coro := t_coro t; t_status := s |}) <$> tasks w !! i.
Proof. apply list_lookup_alter_eq. Qed.

Lemma set_status_lookup_ne (i j : nat) (s : status) (w : world) :
  i <> j -> tasks (set_status i s w) !! j = tasks w !! j.
Proof. intros H. now apply list_lookup_alter_ne. Qed.

Lemma set_coro_lookup_eq (i : nat) (k : coro) (w : world) :
  tasks (set_coro i k w) !! i =
  (fun t => {| t_coro := k; t_status := t_status t |}) <$> tasks w !! i.
Proof. apply list_lookup_alter_eq. Qed.

Lemma set_coro_lookup_ne (i j : nat) (k : coro) (w : world) :
  i <> j -> tasks (set_coro i k w) !! j = tasks w !! j.
Proof. intros H. now apply list_lookup_alter_ne. Qed.


Lemma shutdown_finish_lookup_eq (me : nat) (w : world) :
  tasks (shutdown_finish me w) !! me =
  (fun t => {| t_coro := t_coro t; t_status := Done Completed |}) <$>
    tasks w !! me.
Proof. unfold shutdown_finish. now rewrite set_status_lookup_eq. Qed.

Lemma shutdown_finish_lookup_ne (me j : nat) (w : world) :
  me <> j -> tasks (shutdown_finish me w) !! j = tasks w !! j.
Proof. intros H. unfold shutdown_finish. now rewrite set_status_lookup_ne. Qed.

Lemma shutdown_finish_event (me : nat) (w : world) :
  shutdown_event (shutdown_finish me w) = true.
Proof. reflexivity. Qed.

Lemma shutdown_finish_log (me : nat) (w : world) :
  log (shutdown_finish me w) =
  log w ++ [{| record_level := INFO;
               record_msg := "all tasks have been cancelled or completed" |}].
Proof. reflexivity. Qed.

Lemma set_status_length (i : nat) (s : status) (w : world) :
  length (tasks (set_status i s w)) = length (tasks w).
Proof. apply length_alter. Qed.

Lemma set_coro_length (i : nat) (k : coro) (w : world) :
  length (tasks (set_coro i k w)) = length (tasks w).
Proof. apply length_alter. Qed.

Lemma shutdown_begin_length (me : nat) (w : world) :
  length (tasks (shutdown_begin me w)) = length (tasks w).
Proof.
  unfold shutdown_begin. destruct (shutdown_enumerate me w) as [|i ts].
  - unfold shutdown_finish. now rewrite set_status_length.
  - now rewrite set_coro_length, cancel_all_length.
Qed.

Lemma not_in_shutdown_enumerate (me : nat) (w : world) :
  ~ In me (shutdown_enumerate me w).
Proof. rewrite shutdown_enumerate_spec. tauto. Qed.

(** The entry of another task after [shutdown_begin]. *)
Lemma shutdown_begin_lookup_ne (me j : nat) (w : world) :
  j <> me ->
  tasks (shutdown_begin me w) !! j =
  tasks (cancel_all (shutdown_enumerate me w) w) !! j.
Proof.
  intros Hne. unfold shutdown_begin.
  destruct (shutdown_enumerate me w) as [|i ts].
  - now rewrite shutdown_finish_lookup_ne by congruence.
  - now rewrite set_coro_lookup_ne by congruence.
Qed.

(** Its own entry after [shutdown_begin]. *)
Lemma shutdown_begin_lookup_eq (me : nat) (w : world) (t : task) :
  tasks w !! me = Some t ->
  tasks (shutdown_begin me w) !! me =
  Some (match shutdown_enumerate me w with
        | [] => {| t_coro := t_coro t; t_status := Done Completed |}
        | ts => {| t_coro := ShutdownProcedures (SdWaiting ts);
                   t_status := t_status t |}
        end).
Proof.
  intros Ht. unfold shutdown_begin.
  pose proof (not_in_shutdown_enumerate me w) as Hnot.
  destruct (shutdown_enumerate me w) as [|i ts] eqn:E.
  - rewrite shutdown_finish_lookup_eq. cbn. now rewrite Ht.
  - rewrite set_coro_lookup_eq, (cancel_all_lookup_notin _ _ _ Hnot), Ht.
    reflexivity.
Qed.

Lemma shutdown_begin_event (me : nat) (w : world) :
  shutdown_event (shutdown_begin me w) =
  match shutdown_enumerate me w with
  | [] => true
  | _ => shutdown_event w
  end.
Proof.
  unfold shutdown_begin. destruct (shutdown_enumerate me w) as [|i ts].
  - reflexivity.
  - cbn. apply (cancel_all_other (i :: ts) w).
Qed.

Lemma run_server_frame (u : uvicorn) (w : world) :
  tasks (fst (run_server u w)) = tasks w /\
  shutdown_event (fst (run_server u w)) = shutdown_event w /\
  loop_running (fst (run_server u w)) = loop_running w.
Proof.
  rewrite run_server_unfold.
  destruct (cleanup_frame (fst (serve_guarded u w))) as (-> & -> & ->).
  destruct (serve_guarded_frame u w) as (-> & -> & _ & ->). auto.
Qed.

Lemma create_task_frame (k : coro) (w : world) :
  shutdown_event (fst (asyncio_create_task k w)) = shutdown_event w /\
  forall j t, tasks w !! j = Some t ->
    tasks (fst (asyncio_create_task k w)) !! j = Some t.
Proof.
  unfold asyncio_create_task. destruct (loop_running w); cbn; [|auto].
  split; [reflexivity|]. intros j t Ht.
  rewrite lookup_app_l; [exact Ht | now apply lookup_lt_Some in Ht].
Qed.

Lemma signal_handler_frame (signum : Z) (w : world) :
  shutdown_event (fst (signal_handler signum w)) = shutdown_event w /\
  forall j t, tasks w !! j = Some t ->
    tasks (fst (signal_handler signum w)) !! j = Some t.
Proof.
  unfold signal_handler, bind, logging, modify, ret.
  set (w1 := add_log _ w).
  destruct (create_task_frame (ShutdownProcedures SdCreated) w1) as [He Ht].
  destruct (asyncio_create_task (ShutdownProcedures SdCreated) w1) as [w2 [n|e]];
    cbn in *; auto.
Qed.

(** ** What one step does to a task *)

Lemma sd_start_inv (me : nat) (w w' : world) :
  sd_start me w = Some w' ->
  exists c,
    tasks w !! me =
      Some {| t_coro := ShutdownProcedures SdCreated; t_status := Pending c |} /\
    w' = if c then set_status me (Done Cancelled) w else shutdown_begin me w.
Proof.
  unfold sd_start.
  destruct (tasks w !! me) as [[[|[|ts]] [c|o]]|]; try discriminate.
  intros [= <-]. eauto.
Qed.

Lemma sd_resume_inv (me : nat) (w w' : world) :
  sd_resume me w = Some w' ->
  exists ts c,
    tasks w !! me =
      Some {| t_coro := ShutdownProcedures (SdWaiting ts);
              t_status := Pending c |} /\
    forallb (task_done w) ts = true /\
    w' = if c then set_status me (Done Cancelled) w else shutdown_finish me w.
Proof.
  unfold sd_resume.
  destruct (tasks w !! me) as [[[|[|ts]] [c|o]]|]; try discriminate.
  destruct (forallb (task_done w) ts) eqn:E; [|discriminate].
  intros [= <-]. eauto.
Qed.

Lemma sd_start_length (me : nat) (w w' : world) :
  sd_start me w = Some w' -> length (tasks w') = length (tasks w).
Proof.
  intros H. apply sd_start_inv in H as (c & _ & ->).
  destruct c; [apply set_status_length | apply shutdown_begin_length].
Qed.

Lemma step_entry (w w' : world) (j : nat) (t : task) :
  step w w' ->
  tasks w !! j = Some t ->
  exists t', tasks w' !! j = Some t' /\ entry_change w w' j t t'.
Proof.
  intros Hstep Ht. destruct Hstep as
    [w b|w|w i c o Hi|w i|w i Hi|w s|w signum|w me w' Hs|w me w' Hr|w u|w].
  - exists t. split; [exact Ht | now apply ec_same].
  - exists t. split; [now apply create_task_frame | now apply ec_same].
  - destruct (decide (i = j)) as [->|Hne].
    + rewrite Ht in Hi. injection Hi as ->.
      rewrite set_status_lookup_eq, Ht. eexists. split; [reflexivity|].
      now apply (ec_opaque _ _ _ _ _ c).
    + exists t. rewrite set_status_lookup_ne by exact Hne.
      split; [exact Ht | now apply ec_same].
  - destruct (decide (i = j)) as [->|Hne].
    + exists (request_cancel t). split; [|now apply ec_cancel].
      unfold task_cancel. cbn. now rewrite list_lookup_alter_eq, Ht.
    + exists t. split; [|now apply ec_same].
      unfold task_cancel. cbn. now rewrite list_lookup_alter_ne.
  - destruct (decide (i = j)) as [->|Hne].
    + rewrite Ht in Hi. injection Hi as ->.
      rewrite set_status_lookup_eq, Ht. eexists. split; [reflexivity|].
      now apply (ec_opaque _ _ _ _ _ true).
    + exists t. rewrite set_status_lookup_ne by exact Hne.
      split; [exact Ht | now apply ec_same].
  - exists t. split; [exact Ht | now apply ec_same].
  - exists t. split; [now apply signal_handler_frame | now apply ec_same].
  - destruct (decide (me = j)) as [->|Hne].
    + pose proof (sd_start_length _ _ _ Hs) as Hlen.
      destruct (lookup_lt_is_Some_2 (tasks w') j) as [t' Ht'].
      { rewrite Hlen. now apply lookup_lt_Some in Ht. }
      exists t'. split; [exact Ht'|].
      destruct (sd_start_inv _ _ _ Hs) as (c & Hme & _).
      rewrite Ht in Hme. injection Hme as ->.
      now apply (ec_started _ _ _ _ _ c).
    + apply sd_start_inv in Hs as (c & Hme & ->). destruct c.
      * exists t. rewrite set_status_lookup_ne by exact Hne.
        split; [exact Ht | now apply ec_same].
      * rewrite shutdown_begin_lookup_ne by congruence.
        destruct (cancel_all_lookup (shutdown_enumerate me w) w j t Ht)
          as [H|H]; rewrite H; eexists; (split; [reflexivity|]);
          [now apply ec_same | now apply ec_cancel].
  - apply sd_resume_inv in Hr as (ts & c & Hme & Hall & ->).
    destruct (decide (me = j)) as [->|Hne].
    + rewrite Ht in Hme. injection Hme as ->.
      eexists. split; [|eapply (ec_resumed _ _ _ _ _ ts c); eauto].
      * destruct c; [rewrite set_status_lookup_eq
                    |rewrite shutdown_finish_lookup_eq]; rewrite Ht; reflexivity.
      * intros ->. reflexivity.
    + exists t. split; [|now apply ec_same].
      destruct c; [rewrite set_status_lookup_ne by exact Hne
                  |rewrite shutdown_finish_lookup_ne by exact Hne]; exact Ht.
  - exists t. split; [|now apply ec_same].
    destruct (run_server_frame u w) as (-> & _). exact Ht.
  - exists t. split; [|now apply ec_same].
    destruct (cleanup_frame w) as (-> & _). exact Ht.
Qed.

Lemma entry_change_evolves (w w' : world) (j : nat) (t t' : task) :
  entry_change w w' j t t' -> task_evolves t t'.
Proof.
  intros [->| ->|c -> Hk|c -> _|ts c -> _ -> _]; split; cbn;
    try discriminate; try tauto.
  - apply request_cancel_of_done.
  - intros ts. rewrite request_cancel_coro. tauto.
Qed.

(** The shutdown event changes only when a task running
    [shutdown_procedures] reaches line 201, and then every task it
    enumerated is done. *)
Lemma step_event (w w' : world) :
  step w w' ->
  shutdown_event w' = shutdown_event w \/
  (shutdown_event w' = true /\
   exists me pc,
     tasks w !! me =
       Some {| t_coro := ShutdownProcedures pc; t_status := Pending false |} /\
     status_of w' me = Some (Done Completed) /\
     forall i, In i (enumerated me w) -> task_done w' i = true).
Proof.
  intros Hstep. destruct Hstep as
    [w b|w|w i c o Hi|w i|w i Hi|w s|w signum|w me w' Hs|w me w' Hr|w u|w];
    try (left; reflexivity).
  - left. apply create_task_frame.
  - left. apply signal_handler_frame.
  - apply sd_start_inv in Hs as (c & Hme & ->). destruct c; [left; reflexivity|].
    rewrite shutdown_begin_event.
    destruct (shutdown_enumerate me w) as [|i ts] eqn:E; [right|left; reflexivity].
    split; [reflexivity|]. exists me, SdCreated. split; [exact Hme|]. split.
    + unfold status_of. rewrite (shutdown_begin_lookup_eq _ _ _ Hme), E.
      reflexivity.
    + unfold enumerated. rewrite Hme, E. intros i [].
  - apply sd_resume_inv in Hr as (ts & c & Hme & Hall & ->).
    destruct c; [left; reflexivity|right].
    split; [reflexivity|]. exists me, (SdWaiting ts). split; [exact Hme|]. split.
    + unfold status_of. rewrite shutdown_finish_lookup_eq, Hme. reflexivity.
    + unfold enumerated. rewrite Hme. intros i Hi.
      rewrite forallb_forall in Hall. specialize (Hall i Hi).
      assert (Hne : me <> i).
      { intros ->. unfold task_done in Hall. rewrite Hme in Hall. discriminate. }
      unfold task_done. rewrite shutdown_finish_lookup_ne by exact Hne.
      exact Hall.
  - left. apply run_server_frame.
  - left. apply cleanup_frame.
Qed.

Lemma step_event_mono (w w' : world) :
  step w w' -> shutdown_event w = true -> shutdown_event w' = true.
Proof.
  intros Hstep He. destruct (step_event w w' Hstep) as [->|[-> _]]; auto.
Qed.

Lemma steps_event_mono (w w' : world) :
  steps w w' -> shutdown_event w = true -> shutdown_event w' = true.
Proof.
  induction 1 as [w|w1 w2 w3 _ IH Hstep]; [auto|].
  intros He. eapply step_event_mono; eauto.
Qed.

(** Done tasks are frozen. *)
Lemma step_done_frozen (w w' : world) (i : nat) (t : task) :
  step w w' -> tasks w !! i = Some t -> is_done t = true ->
  tasks w' !! i = Some t.
Proof.
  intros Hstep Ht Hd.
  destruct (step_entry w w' i t Hstep Ht) as (t' & Ht' & Hc).
  apply entry_change_evolves in Hc as [Hc _]. now rewrite Ht', (Hc Hd).
Qed.

Lemma step_task_done (w w' : world) (i : nat) :
  step w w' -> task_done w i = true -> task_done w' i = true.
Proof.
  intros Hstep. unfold task_done.
  destruct (tasks w !! i) as [t|] eqn:Ht; [|discriminate].
  intros Hd. now rewrite (step_done_frozen w w' i t Hstep Ht Hd).
Qed.

Lemma steps_done_frozen (w w' : world) (i : nat) (t : task) :
  steps w w' -> tasks w !! i = Some t -> is_done t = true ->
  tasks w' !! i = Some t.
Proof.
  induction 1 as [w|w1 w2 w3 _ IH Hstep]; [auto|].
  intros Ht Hd. eapply step_done_frozen; eauto.
Qed.

Lemma step_length (w w' : world) :
  step w w' -> length (tasks w) <= length (tasks w').
Proof.
  intros Hstep.
  destruct (Nat.le_gt_cases (length (tasks w)) (length (tasks w')))
    as [H|H]; [exact H|exfalso].
  destruct (lookup_lt_is_Some_2 (tasks w) (length (tasks w'))) as [t Ht];
    [exact H|].
  destruct (step_entry w w' _ t Hstep Ht) as (t' & Ht' & _).
  apply lookup_lt_Some in Ht'. lia.
Qed.

(** ** The life of a task running [shutdown_procedures] *)

Lemma shutdown_begin_waiting (me : nat) (w : world) :
  tasks w !! me =
    Some {| t_coro := ShutdownProcedures SdCreated; t_status := Pending false |} ->
  waiting_or_ended me (shutdown_enumerate me w) (shutdown_begin me w).
Proof.
  intros Hme. unfold waiting_or_ended.
  rewrite (shutdown_begin_lookup_eq _ _ _ Hme), shutdown_begin_event.
  destruct (shutdown_enumerate me w) as [|i ts].
  - right. left. eexists. split; [reflexivity|]. split; [intros i []|reflexivity].
  - left. eexists. reflexivity.
Qed.

Lemma step_waiting_or_ended (me : nat) (ts : list nat) (w w' : world) :
  step w w' -> waiting_or_ended me ts w -> waiting_or_ended me ts w'.
Proof.
  intros Hstep [(c & Hme)|[(k & Hme & Hts & He)|(k & Hme)]].
  - destruct (step_entry w w' me _ Hstep Hme) as (t' & Ht' & Hc).
    destruct Hc as [->| ->|c' [=] _|c' [=] _|ts' c' [= <- <-] Hall -> He].
    + left. eauto.
    + left. exists true. exact Ht'.
    + destruct c.
      * right. right. eauto.
      * right. left. eexists. split; [exact Ht'|]. split; [|auto].
        intros i Hi. rewrite forallb_forall in Hall.
        eapply step_task_done; eauto.
  - right. left. exists k. split; [|split].
    + now apply (step_done_frozen w w' me _ Hstep Hme).
    + intros i Hi. eapply step_task_done; eauto.
    + eapply step_event_mono; eauto.
  - right. right. exists k. now apply (step_done_frozen w w' me _ Hstep Hme).
Qed.

Lemma steps_waiting_or_ended (me : nat) (ts : list nat) (w w' : world) :
  steps w w' -> waiting_or_ended me ts w -> waiting_or_ended me ts w'.
Proof.
  induction 1 as [w|w1 w2 w3 _ IH Hstep]; [auto|].
  intros H. eapply step_waiting_or_ended; eauto.
Qed.

Lemma task_done_status (w : world) (i : nat) :
  task_done w i = true <-> exists o, status_of w i = Some (Done o).
Proof.
  unfold task_done, status_of, is_done.
  destruct (tasks w !! i) as [[k [c|o]]|]; cbn; split;
    try discriminate; try (intros [o' [=]]); eauto.
Qed.

Lemma sd_resume_enabled (me : nat) (ts : list nat) (w : world) :
  tasks w !! me =
    Some {| t_coro := ShutdownProcedures (SdWaiting ts);
            t_status := Pending false |} ->
  (forall i, In i ts -> task_done w i = true) ->
  sd_resume me w = Some (shutdown_finish me w) /\
  status_of (shutdown_finish me w) me = Some (Done Completed) /\
  shutdown_event (shutdown_finish me w) = true.
Proof.
  intros Hme Hall. unfold sd_resume. rewrite Hme.
  apply forallb_forall in Hall. rewrite Hall.
  split; [reflexivity|]. split; [|reflexivity].
  unfold status_of. now rewrite shutdown_finish_lookup_eq, Hme.
Qed.

(** C1: [shutdown_procedures] enumerates exactly the tasks that are not done
    when it begins, except its own; it requests the cancellation of each; if
    there is none it returns at once; otherwise, however the process goes on,
    it has returned only in states where each of them is done (completed,
    cancelled or failed) and the shutdown event is set; and once each of them
    is done, the loop can resume it, and it then returns with the event
    set. *)
Theorem shutdown_procedures_settles (w : world) (me : nat) :
  tasks w !! me =
    Some {| t_coro := ShutdownProcedures SdCreated; t_status := Pending false |} ->
  let ts := shutdown_enumerate me w in
  let w1 := shutdown_begin me w in
  sd_start me w = Some w1 /\
  (forall i, In i ts <->
     i <> me /\
     exists k c, tasks w !! i = Some {| t_coro := k; t_status := Pending c |}) /\
  List.NoDup ts /\
  (forall i, In i ts ->
     exists k, tasks w1 !! i = Some {| t_coro := k; t_status := Pending true |}) /\
  (ts = [] ->
     status_of w1 me = Some (Done Completed) /\ shutdown_event w1 = true) /\
  (forall w2, steps w1 w2 ->
     status_of w2 me = Some (Done Completed) ->
     (forall i, In i ts -> exists o, status_of w2 i = Some (Done o)) /\
     shutdown_event w2 = true) /\
  (forall w2, steps w1 w2 ->
     status_of w2 me = Some (Pending false) ->
     (forall i, In i ts -> exists o, status_of w2 i = Some (Done o)) ->
     exists w3,
       sd_resume me w2 = Some w3 /\
       status_of w3 me = Some (Done Completed) /\
       shutdown_event w3 = true).
Proof.
  intros Hme ts w1.
  pose proof (shutdown_begin_waiting me w Hme) as Hinv. fold ts w1 in Hinv.
  split; [|split; [|split; [|split; [|split; [|split]]]]].
  - unfold sd_start. rewrite Hme. reflexivity.
  - intros i. apply shutdown_enumerate_spec.
  - apply shutdown_enumerate_NoDup.
  - intros i Hi. pose proof Hi as Hi'.
    apply shutdown_enumerate_spec in Hi' as (Hne & k & c & Ht).
    exists k. subst w1. rewrite shutdown_begin_lookup_ne by exact Hne.
    fold ts. rewrite (cancel_all_lookup_in ts w i Hi), Ht. reflexivity.
  - intros Hnil. subst w1. unfold status_of.
    rewrite (shutdown_begin_lookup_eq _ _ _ Hme), shutdown_begin_event.
    fold ts. rewrite Hnil. split; reflexivity.
  - intros w2 Hsteps Hret.
    apply (steps_waiting_or_ended me ts w1 w2 Hsteps) in Hinv.
    unfold status_of in Hret.
    destruct Hinv as [(c & Hme2)|[(k & Hme2 & Hts & He)|(k & Hme2)]];
      rewrite Hme2 in Hret; try discriminate.
    split; [|exact He]. intros i Hi. apply task_done_status. auto.
  - intros w2 Hsteps Hpend Hall.
    apply (steps_waiting_or_ended me ts w1 w2 Hsteps) in Hinv.
    unfold status_of in Hpend.
    destruct Hinv as [(c & Hme2)|[(k & Hme2 & Hts & He)|(k & Hme2)]];
      rewrite Hme2 in Hpend; try discriminate.
    injection Hpend as ->.
    exists (shutdown_finish me w2). apply (sd_resume_enabled me ts); [exact Hme2|].
    intros i Hi. apply task_done_status. auto.
Qed.

(** Three pending tasks, one done task, and the task the signal handler
    created for [shutdown_procedures]. *)
Lemma shutdown_procedures_settles_witness :
  let pending := {| t_coro := Opaque; t_status := Pending false |} in
  let w := {| loop_running := true;
              tasks := [pending; {| t_coro := Opaque; t_status := Done Completed |};
                        pending; pending;
                        {| t_coro := ShutdownProcedures SdCreated;
                           t_status := Pending false |}];
              shutdown_event := false; db_session := None;
              log := []; calls := [] |} in
  tasks w !! 4 = Some shutdown_task /\
  shutdown_enumerate 4 w = [0; 2; 3] /\
  sd_start 4 w = Some (shutdown_begin 4 w) /\
  (forall i, In i [0; 2; 3] ->
     exists k, tasks (shutdown_begin 4 w) !! i =
               Some {| t_coro := k; t_status := Pending true |}) /\
  (forall w2, steps (shutdown_begin 4 w) w2 ->
     status_of w2 4 = Some (Done Completed) ->
     (forall i, In i [0; 2; 3] -> exists o, status_of w2 i = Some (Done o)) /\
     shutdown_event w2 = true).
Proof.
  intros pending w. split; [reflexivity|]. split; [reflexivity|].
  destruct (shutdown_procedures_settles w 4 eq_refl)
    as (H1 & _ & _ & H4 & _ & H6 & _).
  split; [exact H1|]. split; [exact H4 | exact H6].
Defined.

(** A handle the loop runs is a step of the process, followed by the stop of
    the loop when an exception leaves [run_forever]. *)
Lemma run_handle_steps (h : handle) (w w' : world) (r : result unit) :
  run_handle h w = Some (w', r) -> steps w w'.
Proof.
  unfold run_handle. destruct (loop_running w); [|discriminate].
  destruct h as [i o|me].
  - destruct (tasks w !! i) as [[[|pc] [c|o']]|] eqn:Hi; try discriminate.
    assert (Hs : step w (set_status i (Done o) w))
      by (eapply step_settle; exact Hi).
    cbn zeta. destruct (step_result o); intros [= <- <-].
    + eapply steps_step; [apply steps_refl | exact Hs].
    + eapply steps_step; [|apply step_loop].
      eapply steps_step; [apply steps_refl | exact Hs].
  - destruct (sd_start me w) as [w1|] eqn:Hstart.
    + intros [= <- <-].
      eapply steps_step; [apply steps_refl | eapply step_sd_start; exact Hstart].
    + destruct (sd_resume me w) as [w1|] eqn:Hres; [|discriminate].
      intros [= <- <-].
      eapply steps_step; [apply steps_refl | eapply step_sd_resume; exact Hres].
Qed.

(** A task suspended in [gather], or one that has ended, is not run while a
    task of its [gather] is pending. *)
Lemma run_handle_blocked (me : nat) (ts : list nat) (w : world) (j : nat) :
  waiting_or_ended me ts w ->
  In j ts -> task_done w j = false ->
  run_handle (ShutdownRuns me) w = None.
Proof.
  intros Hinv Hj Hnd. unfold run_handle.
  destruct (loop_running w); [|reflexivity].
  assert (Hall : forallb (task_done w) ts = false).
  { apply not_true_iff_false. intros Hall.
    rewrite forallb_forall in Hall. rewrite (Hall j Hj) in Hnd. discriminate. }
  unfold sd_start, sd_resume.
  destruct Hinv as [(c & Hme)|[(k & Hme & _)|(k & Hme)]]; rewrite Hme.
  - rewrite Hall. reflexivity.
  - destruct k as [|[|ts']]; reflexivity.
  - destruct k as [|[|ts']]; reflexivity.
Qed.

(** C3, amended: let the task [i] be one of the tasks [ts] that
    [shutdown_procedures] enumerated and waits for in [gather], and let the
    code of [i] end by raising [e], while it is being cancelled ([c] is
    [true]) or otherwise.  Until then the coroutine is not resumed.  The
    exception is kept in the task [i] and changes no other task, nor the
    event, nor the log.
    When [e] is not [KeyboardInterrupt] or [SystemExit], the loop goes on
    running, and however the process goes on: [i] stays failed with [e]; the
    task of [shutdown_procedures] never ends with an exception, has returned
    only with every task of [ts] done and the event set, and is not resumed
    while a task of [ts] is pending; and when every task of [ts] is done
    (the coroutine not being cancelled itself), the loop resumes it, and it
    sets the event, logs and returns without an exception.
    When [e] is [KeyboardInterrupt] or [SystemExit], [Task.__step] raises it
    again: it leaves [run_forever], the loop is no longer running and runs
    no handle, and the coroutine stays suspended at line 200 with the event
    as it was. *)
Theorem shutdown_suppresses_task_errors
    (w : world) (me : nat) (ts : list nat) (i : nat) (c : bool) (e : exc) :
  loop_running w = true ->
  tasks w !! me =
    Some {| t_coro := ShutdownProcedures (SdWaiting ts);
            t_status := Pending false |} ->
  In i ts ->
  tasks w !! i = Some {| t_coro := Opaque; t_status := Pending c |} ->
  let w1 := set_status i (Done (Failed e)) w in
  run_handle (ShutdownRuns me) w = None /\
  status_of w1 i = Some (Done (Failed e)) /\
  (forall j, j <> i -> tasks w1 !! j = tasks w !! j) /\
  shutdown_event w1 = shutdown_event w /\
  log w1 = log w /\
  (reraised_by_step e = false ->
     run_handle (OpaqueEnds i (Failed e)) w = Some (w1, Return tt) /\
     loop_running w1 = true /\
     forall w2, steps w1 w2 ->
       status_of w2 i = Some (Done (Failed e)) /\
       (forall e', status_of w2 me <> Some (Done (Failed e'))) /\
       (status_of w2 me = Some (Done Completed) ->
          (forall j, In j ts -> task_done w2 j = true) /\
          shutdown_event w2 = true) /\
       (forall j, In j ts -> task_done w2 j = false ->
          run_handle (ShutdownRuns me) w2 = None) /\
       (loop_running w2 = true ->
        status_of w2 me = Some (Pending false) ->
        (forall j, In j ts -> task_done w2 j = true) ->
        let w3 := shutdown_finish me w2 in
        run_handle (ShutdownRuns me) w2 = Some (w3, Return tt) /\
        status_of w3 me = Some (Done Completed) /\
        shutdown_event w3 = true /\
        log w3 =
          log w2 ++
          [{| record_level := INFO;
              record_msg := "all tasks have been cancelled or completed" |}] /\
        (forall j, j <> me -> tasks w3 !! j = tasks w2 !! j))) /\
  (reraised_by_step e = true ->
     let w1' := set_loop_running false w1 in
     run_handle (OpaqueEnds i (Failed e)) w = Some (w1', Raise e) /\
     loop_running w1' = false /\
     (forall h, run_handle h w1' = None) /\
     tasks w1' !! me =
       Some {| t_coro := ShutdownProcedures (SdWaiting ts);
               t_status := Pending false |} /\
     shutdown_event w1' = shutdown_event w).
Proof.
  intros Hrun Hme Hi Hti w1.
  assert (Hne : i <> me) by (intros ->; rewrite Hme in Hti; discriminate).
  assert (Hme1 : tasks w1 !! me = tasks w !! me)
    by (apply set_status_lookup_ne; exact Hne).
  assert (Hi1 : tasks w1 !! i =
                Some {| t_coro := Opaque; t_status := Done (Failed e) |})
    by (subst w1; rewrite set_status_lookup_eq, Hti; reflexivity).
  assert (Hwait : waiting_or_ended me ts w)
    by (left; exists false; exact Hme).
  assert (Hwait1 : waiting_or_ended me ts w1)
    by (left; exists false; rewrite Hme1; exact Hme).
  split; [|split; [|split; [|split; [|split; [|split]]]]].
  - apply (run_handle_blocked me ts w i Hwait Hi).
    unfold task_done. rewrite Hti. reflexivity.
  - unfold status_of. rewrite Hi1. reflexivity.
  - intros j Hj. apply set_status_lookup_ne. congruence.
  - reflexivity.
  - reflexivity.
  - intros Hre. split; [|split].
    + unfold run_handle. rewrite Hrun, Hti. cbn [step_result].
      rewrite Hre. reflexivity.
    + exact Hrun.
    + intros w2 Hsteps.
      pose proof (steps_waiting_or_ended me ts w1 w2 Hsteps Hwait1) as Hinv.
      split; [|split; [|split; [|split]]].
      * unfold status_of.
        rewrite (steps_done_frozen w1 w2 i _ Hsteps Hi1 eq_refl). reflexivity.
      * intros e'. unfold status_of.
        destruct Hinv as [(c' & H2)|[(k & H2 & _)|(k & H2)]];
          rewrite H2; discriminate.
      * unfold status_of.
        destruct Hinv as [(c' & H2)|[(k & H2 & Hts & He)|(k & H2)]];
          rewrite H2; try discriminate.
        intros _. split; [exact Hts | exact He].
      * intros j Hj Hnd. exact (run_handle_blocked me ts w2 j Hinv Hj Hnd).
      * intros Hrun2 Hpend Hall w3. unfold status_of in Hpend.
        destruct Hinv as [(c' & H2)|[(k & H2 & _)|(k & H2)]];
          rewrite H2 in Hpend; try discriminate.
        injection Hpend as ->.
        destruct (sd_resume_enabled me ts w2 H2 Hall) as (Hr & Hs & He).
        split; [|split; [exact Hs|split; [exact He|split]]].
        -- unfold run_handle. rewrite Hrun2.
           unfold sd_start. rewrite H2. rewrite Hr. reflexivity.
        -- apply shutdown_finish_log.
        -- intros j Hj. apply shutdown_finish_lookup_ne. congruence.
  - intros Hre w1'. split; [|split; [|split; [|split]]].
    + unfold run_handle. rewrite Hrun, Hti. cbn [step_result].
      rewrite Hre. reflexivity.
    + reflexivity.
    + intros h. reflexivity.
    + change (tasks w1') with (tasks w1). rewrite Hme1. exact Hme.
    + reflexivity.
Qed.

(** Task 0 raises [ValueError] while it is being cancelled; task 2 is still
    pending then, and ends cancelled afterwards; task 1 was cancelled
    before. *)
Lemma shutdown_suppresses_task_errors_witness :
  let e := {| exc_type := OtherException "ValueError"; exc_str := "boom" |} in
  let w := {| loop_running := true;
              tasks := [{| t_coro := Opaque; t_status := Pending true |};
                        {| t_coro := Opaque; t_status := Done Cancelled |};
                        {| t_coro := Opaque; t_status := Pending true |};
                        {| t_coro := ShutdownProcedures (SdWaiting [0; 1; 2]);
                           t_status := Pending false |}];
              shutdown_event := false; db_session := None;
              log := []; calls := [] |} in
  let w1 := set_status 0 (Done (Failed e)) w in
  let w2 := set_status 2 (Done Cancelled) w1 in
  loop_running w = true /\
  tasks w !! 3 =
    Some {| t_coro := ShutdownProcedures (SdWaiting [0; 1; 2]);
            t_status := Pending false |} /\
  In 0 [0; 1; 2] /\
  tasks w !! 0 = Some {| t_coro := Opaque; t_status := Pending true |} /\
  reraised_by_step e = false /\
  run_handle (ShutdownRuns 3) w = None /\
  run_handle (OpaqueEnds 0 (Failed e)) w = Some (w1, Return tt) /\
  run_handle (ShutdownRuns 3) w1 = None /\
  run_handle (ShutdownRuns 3) w2 = Some (shutdown_finish 3 w2, Return tt) /\
  status_of (shutdown_finish 3 w2) 3 = Some (Done Completed) /\
  status_of (shutdown_finish 3 w2) 0 = Some (Done (Failed e)) /\
  shutdown_event (shutdown_finish 3 w2) = true.
Proof.
  intros e w w1 w2.
  destruct (shutdown_suppresses_task_errors w 3 [0; 1; 2] 0 true e
              eq_refl eq_refl (or_introl eq_refl) eq_refl)
    as (Hblocked & _ & _ & _ & _ & Hgoes & _).
  destruct (Hgoes eq_refl) as (Hfail & _ & Hlater).
  destruct (Hlater w1 (steps_refl w1)) as (_ & _ & _ & Hwait1 & _).
  assert (Hsteps : steps w1 w2)
    by (eapply steps_step; [apply steps_refl|];
        apply (step_settle w1 2 true Cancelled); reflexivity).
  destruct (Hlater w2 Hsteps) as (_ & _ & _ & _ & Hresume).
  assert (Hall : forall j, In j [0; 1; 2] -> task_done w2 j = true)
    by (intros j [<-|[<-|[<-|[]]]]; reflexivity).
  destruct (Hresume eq_refl eq_refl Hall) as (Hr & Hs & Hev & _ & _).
  split; [reflexivity|]. split; [reflexivity|]. split; [now left|].
  split; [reflexivity|]. split; [reflexivity|].
  split; [exact Hblocked|]. split; [exact Hfail|].
  split; [apply (Hwait1 2); [right; right; now left | reflexivity]|].
  split; [exact Hr|]. split; [exact Hs|]. split; [reflexivity | exact Hev].
Defined.

(** C3, counterexample: the only enumerated task calls [sys.exit(1)] while
    it is being cancelled.  [SystemExit] is kept in the task, which is then
    done like every enumerated task, but it also leaves [run_forever]: the
    loop has stopped, it runs no handle, [shutdown_procedures] is still
    suspended in [gather] and the shutdown event is not set. *)
Lemma shutdown_stopped_by_SystemExit :
  let e := {| exc_type := SystemExit; exc_str := "1" |} in
  let w := {| loop_running := true;
              tasks := [{| t_coro := Opaque; t_status := Pending true |};
                        {| t_coro := ShutdownProcedures (SdWaiting [0]);
                           t_status := Pending false |}];
              shutdown_event := false; db_session := None;
              log := []; calls := [] |} in
  let w' := set_loop_running false (set_status 0 (Done (Failed e)) w) in
  enumerated 1 w = [0] /\
  run_handle (OpaqueEnds 0 (Failed e)) w = Some (w', Raise e) /\
  status_of w' 0 = Some (Done (Failed e)) /\
  forallb (task_done w') (enumerated 1 w') = true /\
  loop_running w' = false /\
  (forall h, run_handle h w' = None) /\
  status_of w' 1 = Some (Pending false) /\
  shutdown_event w' = false.
Proof.
  intros e w w'. repeat split.
Qed.

(** ** The signal handler *)

(** C7, amended: the handler first logs the receipt of the signal.
    While an event loop is running it then appends a task for
    [shutdown_procedures] and returns at once: the task has not run, no
    cancellation has been requested and the shutdown event is as it was.
    With no running loop [asyncio.create_task] raises [RuntimeError] and
    nothing is scheduled. *)
Theorem signal_handler_schedules (signum : Z) (w : world) :
  let w' := fst (signal_handler signum w) in
  log w' = log w ++ [signal_received signum] /\
  shutdown_event w' = shutdown_event w /\
  (forall j t, tasks w !! j = Some t -> tasks w' !! j = Some t) /\
  (loop_running w = true ->
     snd (signal_handler signum w) = Return tt /\
     tasks w' = tasks w ++ [shutdown_task] /\
     sd_start (length (tasks w)) w' =
       Some (shutdown_begin (length (tasks w)) w')) /\
  (loop_running w = false ->
     snd (signal_handler signum w) =
       Raise {| exc_type := RuntimeError; exc_str := "no running event loop" |} /\
     tasks w' = tasks w).
Proof.
  intros w'. subst w'.
  split; [|split; [apply signal_handler_frame
                  |split; [apply signal_handler_frame|]]];
    unfold signal_handler, bind, logging, modify, ret, asyncio_create_task;
    cbn [loop_running add_log]; destruct (loop_running w); cbn;
    try reflexivity.
  - split; [intros _|discriminate]. split; [reflexivity|].
    split; [reflexivity|]. unfold sd_start. cbn [tasks set_tasks add_log].
    rewrite lookup_app_r by lia. rewrite Nat.sub_diag. reflexivity.
  - split; [discriminate|]. intros _. split; reflexivity.
Qed.

(** SIGTERM while the loop runs one task. *)
Lemma signal_handler_schedules_witness :
  let w := {| loop_running := true;
              tasks := [{| t_coro := Opaque; t_status := Pending false |}];
              shutdown_event := false; db_session := None;
              log := []; calls := [] |} in
  loop_running w = true /\
  snd (signal_handler 15 w) = Return tt /\
  tasks (fst (signal_handler 15 w)) = tasks w ++ [shutdown_task] /\
  log (fst (signal_handler 15 w)) = log w ++ [signal_received 15].
Proof.
  intros w. split; [reflexivity|].
  destruct (signal_handler_schedules 15 w) as (Hlog & _ & _ & Hrun & _).
  destruct (Hrun eq_refl) as (Hret & Htasks & _).
  split; [exact Hret|]. split; [exact Htasks | exact Hlog].
Defined.

(** C7, counterexample: the handler is installed by [__init__], and a signal
    that arrives while no event loop is running is logged, but no task is
    scheduled and [RuntimeError] is raised. *)
Lemma signal_handler_without_loop :
  loop_running init_world = false /\
  snd (signal_handler 15 init_world) =
    Raise {| exc_type := RuntimeError; exc_str := "no running event loop" |} /\
  tasks (fst (signal_handler 15 init_world)) = [] /\
  log (fst (signal_handler 15 init_world)) = [signal_received 15].
Proof. repeat split. Qed.

(** ** The shutdown event *)

(** C8: the event is unset after construction; no step of the process
    clears it; and a step sets it only by taking a task that runs
    [shutdown_procedures], and was not cancelled, to its return, at which
    point every task it enumerated is done. *)
Theorem shutdown_event_single_use :
  shutdown_event init_world = false /\
  (forall w w', step w w' ->
     shutdown_event w = true -> shutdown_event w' = true) /\
  (forall w w', steps w w' ->
     shutdown_event w = true -> shutdown_event w' = true) /\
  (forall w w', step w w' ->
     shutdown_event w = false -> shutdown_event w' = true ->
     exists me pc,
       tasks w !! me =
         Some {| t_coro := ShutdownProcedures pc; t_status := Pending false |} /\
       (sd_start me w = Some w' \/ sd_resume me w = Some w') /\
       status_of w' me = Some (Done Completed) /\
       forall i, In i (enumerated me w) ->
                 exists o, status_of w' i = Some (Done o)).
Proof.
  split; [reflexivity|]. split; [exact step_event_mono|].
  split; [exact steps_event_mono|].
  intros w w' Hstep Hf Ht.
  destruct (step_event w w' Hstep) as [He|[_ (me & pc & Hme & Hs & Hall)]];
    [congruence|].
  exists me, pc. split; [exact Hme|]. split; [|split; [exact Hs|]].
  - destruct Hstep as
      [w b|w|w i c o Hi|w i|w i Hi|w s|w signum|w me' w' Hs'|w me' w' Hr|w u|w].
    all: try (exfalso; cbn in Ht; congruence).
    + exfalso. destruct (create_task_frame Opaque w) as [He _]. congruence.
    + exfalso. destruct (signal_handler_frame signum w) as [He _]. congruence.
    + left. destruct (decide (me' = me)) as [->|Hne]; [exact Hs'|exfalso].
      apply sd_start_inv in Hs' as (c & Hme' & ->). unfold status_of in Hs.
      destruct c.
      * cbn in Ht. congruence.
      * rewrite shutdown_begin_lookup_ne in Hs by congruence.
        destruct (cancel_all_lookup (shutdown_enumerate me' w) w me _ Hme)
          as [H|H]; rewrite H in Hs; discriminate.
    + right. destruct (decide (me' = me)) as [->|Hne]; [exact Hr|exfalso].
      apply sd_resume_inv in Hr as (ts & c & Hme' & _ & ->).
      unfold status_of in Hs. destruct c.
      * cbn in Ht. congruence.
      * rewrite shutdown_finish_lookup_ne in Hs by exact Hne.
        rewrite Hme in Hs. discriminate.
    + exfalso. destruct (run_server_frame u w) as (_ & He & _). congruence.
    + exfalso. destruct (cleanup_frame w) as (_ & He & _). congruence.
  - intros i Hi. apply task_done_status. auto.
Qed.

(** ** Tasks created after the enumeration *)







(** ** A run of the whole sequence *)

(** The loop starts, three tasks are created, SIGTERM arrives, the task of
    [shutdown_procedures] runs, the three tasks end cancelled and
    [shutdown_procedures] resumes: it has returned, and the event is set. *)
Example three_tasks_cancelled :
  let w4 := fst (asyncio_create_task Opaque
              (fst (asyncio_create_task Opaque
                 (fst (asyncio_create_task Opaque
                    (set_loop_running true init_world)))))) in
  let w6 := shutdown_begin 3 (fst (signal_handler 15 w4)) in
  let w9 := set_status 2 (Done Cancelled)
              (set_status 1 (Done Cancelled)
                 (set_status 0 (Done Cancelled) w6)) in
  let w_end := shutdown_finish 3 w9 in
  steps init_world w_end /\
  shutdown_enumerate 3 (fst (signal_handler 15 w4)) = [0; 1; 2] /\
  shutdown_event w9 = false /\
  (forall i, In i [0; 1; 2] -> status_of w_end i = Some (Done Cancelled)) /\
  status_of w_end 3 = Some (Done Completed) /\
  shutdown_event w_end = true.
Proof.
  intros w4 w6 w9 w_end. split.
  - eapply steps_step; [|apply (step_sd_resume w9 3); reflexivity].
    eapply steps_step; [|apply (step_settle _ 2 true Cancelled); reflexivity].
    eapply steps_step; [|apply (step_settle _ 1 true Cancelled); reflexivity].
    eapply steps_step; [|apply (step_settle _ 0 true Cancelled); reflexivity].
    eapply steps_step;
      [|apply (step_sd_start (fst (signal_handler 15 w4)) 3); reflexivity].
    eapply steps_step; [|apply (step_signal w4 15)].
    eapply steps_step; [|apply step_create].
    eapply steps_step; [|apply step_create].
    eapply steps_step; [|apply step_create].
    eapply steps_step; [apply steps_refl|apply (step_loop init_world true)].
  - split; [reflexivity|]. split; [reflexivity|].
    split; [|split; reflexivity].
    intros i [<-|[<-|[<-|[]]]]; reflexivity.
Qed.

(** * Further properties of the class *)

(** ** Provider selection *)

Lemma prefix_spec (a s : string) :
  String.prefix a s = true <-> exists q, s = a +:+ q.
Proof.
  revert s. induction a as [|c a IH]; intros [|d s]; cbn.
  - split; [intros _; exists ""; reflexivity | reflexivity].
  - split; [intros _; exists (String d s); reflexivity | reflexivity].
  - split; [discriminate|]. intros [q Hq].
    change (String c a +:+ q) with (String c (a +:+ q)) in Hq. discriminate.
  - destruct (Ascii.ascii_dec c d) as [->|Hne].
    + rewrite IH. split; intros [q Hq]; exists q.
      * rewrite Hq. reflexivity.
      * change (String d a +:+ q) with (String d (a +:+ q)) in Hq. congruence.
    + split; [discriminate|]. intros [q Hq].
      change (String c a +:+ q) with (String c (a +:+ q)) in Hq. congruence.
Qed.

(** [sub in s] is true exactly when [sub] occurs in [s]. *)
Lemma contains_spec (sub s : string) :
  Py.contains sub s = true <-> exists p q, s = p +:+ sub +:+ q.
Proof.
  induction s as [|c s IH]; cbn [Py.contains].
  - rewrite orb_false_r, prefix_spec. split.
    + intros [q Hq]. exists "", q. exact Hq.
    + intros ([|d p] & q & Hq); [exists q; exact Hq | discriminate].
  - rewrite orb_true_iff, prefix_spec, IH. split.
    + intros [[q Hq]|(p & q & Hq)].
      * exists "", q. exact Hq.
      * exists (String c p), q. cbn. now rewrite Hq.
    + intros ([|d p] & q & Hq).
      * left. exists q. exact Hq.
      * right. injection Hq as _ Hq. eauto.
Qed.

Section ProviderTable.

Variables Func Tool Retriever : Type.
Variable from_defaults : Func -> Tool.
Variable basic_retrieve : list Tool -> list string -> Retriever.
Variables get_db_schemas text_2_sql : Func.

(** X1: which provider [__setup] constructs, for every model name: OpenAI
    when the name contains "gpt"; otherwise Claude when it contains
    "claude"; otherwise Ollama when it contains "llama"; otherwise Mistral.
    The tests are case-sensitive substring tests, and earlier tests win.
    Without a model entry in the configuration the name is "gpt-3.5-turbo"
    and the provider is OpenAI. *)
Theorem setup_provider_table (self : agent_args Func) (base_dir : path_state) :
  let model := config_get_model self in
  let has := fun sub : string => exists p q, model = p +:+ sub +:+ q in
  let provider :=
    call_llm (setup from_defaults basic_retrieve get_db_schemas text_2_sql
                self base_dir) in
  (provider = OpenAILLM <-> has "gpt") /\
  (provider = ClaudeLLM <-> ~ has "gpt" /\ has "claude") /\
  (provider = OllamaLLM <-> ~ has "gpt" /\ ~ has "claude" /\ has "llama") /\
  (provider = MistralLLM <-> ~ has "gpt" /\ ~ has "claude" /\ ~ has "llama") /\
  (config_model self = None -> provider = OpenAILLM).
Proof.
  intros model has provider.
  assert (Hp : provider = llm_of_branch (select_branch model)).
  { subst provider. unfold setup.
    destruct (retrieve_condition base_dir (retrieve self)); reflexivity. }
  assert (Hg : Py.contains "gpt" model = true <-> has "gpt")
    by apply contains_spec.
  assert (Hc : Py.contains "claude" model = true <-> has "claude")
    by apply contains_spec.
  assert (Hl : Py.contains "llama" model = true <-> has "llama")
    by apply contains_spec.
  assert (Hd : config_model self = None -> provider = OpenAILLM).
  { intros Hnone. rewrite Hp. subst model. unfold config_get_model.
    rewrite Hnone. reflexivity. }
  enough (Htab :
    (provider = OpenAILLM <-> has "gpt") /\
    (provider = ClaudeLLM <-> ~ has "gpt" /\ has "claude") /\
    (provider = OllamaLLM <-> ~ has "gpt" /\ ~ has "claude" /\ has "llama") /\
    (provider = MistralLLM <-> ~ has "gpt" /\ ~ has "claude" /\ ~ has "llama"))
    by (destruct Htab as (H1 & H2 & H3 & H4); auto).
  rewrite Hp. clear Hp Hd. unfold select_branch.
  rewrite mixtral_condition_true. cbn [Py.truthy Py.is_in].
  destruct (Py.contains "gpt" model);
    destruct (Py.contains "claude" model);
    destruct (Py.contains "llama" model);
    cbn [llm_of_branch]; intuition (try discriminate; try congruence).
Qed.

End ProviderTable.

(** ** The [retrieve] flag *)

Lemma land_1 (n : Z) : Z.land 1 n = Z.b2z (Z.odd n).
Proof.
  rewrite Z.land_comm. change 1%Z with (Z.ones 1).
  rewrite Z.land_ones by lia. rewrite <- Z.bit0_odd, Z.bit0_mod. reflexivity.
Qed.

(** X2: line 102 for a flag that is not a bool.  For a bool it is the
    conjunction of the flag and the test of the base directory; for an int,
    [True & n] keeps the lowest bit only, so retrieval is enabled exactly
    when the int is odd and the base directory is not empty: 2 does not
    enable it, 3 does. *)
Theorem retrieve_condition_flag (base_dir : path_state) :
  (forall b : bool,
     retrieve_condition_of base_dir (FlagBool b) =
     retrieve_condition base_dir b) /\
  (forall n : Z,
     retrieve_condition_of base_dir (FlagInt n) = true <->
     Z.odd n = true /\ is_base_dir_not_empty base_dir = true).
Proof.
  split.
  - intros b. unfold retrieve_condition_of, retrieve_condition, flag_eq.
    cbn. destruct (is_base_dir_not_empty base_dir), b; reflexivity.
  - intros n. unfold retrieve_condition_of, flag_eq. cbn [true_and flag_number].
    rewrite land_1.
    destruct (is_base_dir_not_empty base_dir), (Z.odd n); cbn;
      intuition discriminate.
Qed.

(** ** [__cleanup], whatever [close] does *)

Lemma cleanup_cases (w : world) :
  (db_session w = None /\
   cleanup w =
     (add_call (Leave "__cleanup" true)
        (add_log cleanup_completed (add_call (Enter "__cleanup") w)),
      Return tt)) \/
  (exists s, db_session w = Some s /\
   cleanup w =
     let w1 := add_call (Leave "db_session.close" (is_return (close_result s)))
                 (add_call (Enter "db_session.close")
                    (add_call (Enter "__cleanup") w)) in
     match close_result s with
     | Return _ =>
         (add_call (Leave "__cleanup" true)
            (add_log cleanup_completed
               (add_log {| record_level := DEBUG;
                           record_msg := "database connection closed" |} w1)),
          Return tt)
     | Raise e =>
         if isinstance_Exception e
         then (add_call (Leave "__cleanup" true)
                 (add_log cleanup_completed (add_log (cleanup_error e) w1)),
               Return tt)
         else (add_call (Leave "__cleanup" false)
                 (add_log cleanup_completed w1), Raise e)
     end).
Proof.
  destruct (db_session w) as [s|] eqn:Hs.
  - right. exists s. split; [reflexivity|]. now apply cleanup_attached.
  - left. split; [reflexivity|]. now apply cleanup_detached.
Qed.

(** X3: in every case [__cleanup] logs "cleanup process completed" once, as
    the last record; before it, "database connection closed" when [close]
    returned, the error when [close] raised an instance of [Exception], and
    nothing otherwise.  [close] is called once when [db_session] is attached
    and never otherwise, and the attribute is left in place. *)
Theorem cleanup_always_completes (w : world) :
  let w' := fst (cleanup w) in
  log w' =
    log w ++
    match db_session w with
    | None => []
    | Some s =>
        match close_result s with
        | Return _ => [{| record_level := DEBUG;
                          record_msg := "database connection closed" |}]
        | Raise e => if isinstance_Exception e then [cleanup_error e] else []
        end
    end ++ [cleanup_completed] /\
  (exists b,
     calls w' =
       calls w ++
       Enter "__cleanup" ::
       match db_session w with
       | None => []
       | Some s => [Enter "db_session.close";
                    Leave "db_session.close" (is_return (close_result s))]
       end ++ [Leave "__cleanup" b]) /\
  db_session w' = db_session w.
Proof.
  intros w'. subst w'.
  destruct (cleanup_cases w) as [[Hs ->]|(s & Hs & ->)]; rewrite Hs; cbn zeta.
  - cbn. split; [reflexivity|]. split; [|exact Hs].
    exists true. now rewrite <- app_assoc.
  - destruct (close_result s) as [[]|e]; [|destruct (isinstance_Exception e)];
      cbn; (split; [now rewrite <- ?app_assoc|]); (split; [|exact Hs]);
      eexists; rewrite <- !app_assoc; reflexivity.
Qed.

Lemma cleanup_result (w : world) :
  snd (cleanup w) =
  match escapes (close_failure w) with
  | Some e => Raise e
  | None => Return tt
  end.
Proof.
  unfold close_failure, escapes.
  destruct (cleanup_cases w) as [[Hs ->]|(s & Hs & ->)]; rewrite Hs; cbn zeta.
  - reflexivity.
  - destruct (close_result s) as [[]|e]; [|destruct (isinstance_Exception e)];
      reflexivity.
Qed.

(** X4: an exception leaves [__cleanup] exactly when [db_session] is
    attached and [close] raised it and it is not an instance of [Exception];
    in particular [__cleanup] never raises an instance of [Exception]. *)
Theorem cleanup_raise_iff (w : world) (e : exc) :
  snd (cleanup w) = Raise e <->
  exists s,
    db_session w = Some s /\ close_result s = Raise e /\
    isinstance_Exception e = false.
Proof.
  rewrite cleanup_result. unfold close_failure, escapes.
  destruct (db_session w) as [s|].
  - destruct (close_result s) as [[]|e'] eqn:Hc.
    + split; [discriminate | intros (s' & [= <-] & Hr & _); congruence].
    + destruct (isinstance_Exception e') eqn:Hi.
      * split; [discriminate|]. intros (s' & [= <-] & Hr & Hn). congruence.
      * split.
        -- intros [= <-]. exists s. auto.
        -- intros (s' & [= <-] & Hr & _). congruence.
  - split; [discriminate | intros (s' & [=] & _)].
Qed.

(** ** [run_server]: what it logs and what leaves it *)

Lemma serve_guarded_result (u : uvicorn) (w : world) :
  snd (serve_guarded u w) =
  match escapes (first_failure u) with
  | Some e => Raise e
  | None => Return tt
  end.
Proof.
  unfold serve_guarded, try_except_Exception, bind, external, logging, modify,
    first_failure, escapes.
  destruct (Config_result u) as [[]|e1]; cbn;
    [destruct (Server_result u) as [[]|e2]; cbn;
       [destruct (serve_result u) as [[]|e3]; cbn;
          [|destruct (isinstance_Exception e3)]
       |destruct (isinstance_Exception e2)]
    |destruct (isinstance_Exception e1)]; reflexivity.
Qed.

Lemma serve_guarded_log (u : uvicorn) (w : world) :
  log (fst (serve_guarded u w)) =
  log w ++
  match first_failure u with
  | Some e => if isinstance_Exception e then [server_error e] else []
  | None => []
  end.
Proof.
  unfold serve_guarded, try_except_Exception, bind, external, logging, modify,
    first_failure.
  destruct (Config_result u) as [[]|e1]; cbn;
    [destruct (Server_result u) as [[]|e2]; cbn;
       [destruct (serve_result u) as [[]|e3]; cbn;
          [|destruct (isinstance_Exception e3)]
       |destruct (isinstance_Exception e2)]
    |destruct (isinstance_Exception e1)]; cbn;
    rewrite ?app_nil_r; reflexivity.
Qed.

Lemma cleanup_log (w : world) :
  log (fst (cleanup w)) = log w ++ cleanup_records w ++ [cleanup_completed].
Proof.
  unfold cleanup_records.
  destruct (cleanup_cases w) as [[Hs ->]|(s & Hs & ->)]; rewrite Hs; cbn zeta.
  - reflexivity.
  - destruct (close_result s) as [[]|e]; [|destruct (isinstance_Exception e)];
      cbn; now rewrite <- ?app_assoc.
Qed.

Lemma escapes_not_Exception (o : option exc) (e : exc) :
  escapes o = Some e -> isinstance_Exception e = false.
Proof.
  unfold escapes. destruct o as [e'|]; [|discriminate].
  destruct (isinstance_Exception e') eqn:Hi; [discriminate|].
  intros [= <-]. exact Hi.
Qed.

Lemma run_server_result (u : uvicorn) (w : world) :
  snd (run_server u w) =
  match escapes (close_failure w) with
  | Some e => Raise e
  | None =>
      match escapes (first_failure u) with
      | Some e => Raise e
      | None => Return tt
      end
  end.
Proof.
  unfold run_server, try_finally.
  pose proof (serve_guarded_result u w) as Hr.
  destruct (serve_guarded_frame u w) as (_ & _ & Hdb & _).
  destruct (serve_guarded u w) as [w1 r]. cbn [fst snd] in *.
  pose proof (cleanup_result w1) as Hc.
  assert (Hcf : close_failure w1 = close_failure w)
    by (unfold close_failure; now rewrite Hdb).
  rewrite Hcf in Hc.
  destruct (cleanup w1) as [w2 [[]|e]]; cbn [snd] in *;
    destruct (escapes (close_failure w)); try discriminate; congruence.
Qed.

Lemma run_server_raises_not_Exception (u : uvicorn) (w : world) (e : exc) :
  snd (run_server u w) = Raise e -> isinstance_Exception e = false.
Proof.
  rewrite run_server_result.
  destruct (escapes (close_failure w)) as [e1|] eqn:H1.
  - intros [= <-]. eapply escapes_not_Exception; eauto.
  - destruct (escapes (first_failure u)) as [e2|] eqn:H2; [|discriminate].
    intros [= <-]. eapply escapes_not_Exception; eauto.
Qed.

(** X5: no instance of [Exception] ever leaves [run_server]; it returns
    normally exactly when neither the [try] block nor [close] raised an
    exception outside [Exception]; when both did, the one of [close] is the
    one that leaves, and otherwise the only one that did. *)
Theorem run_server_outcome (u : uvicorn) (w : world) :
  (forall e, snd (run_server u w) = Raise e -> isinstance_Exception e = false) /\
  (snd (run_server u w) = Return tt <->
   escapes (first_failure u) = None /\ escapes (close_failure w) = None) /\
  (forall e, escapes (close_failure w) = Some e ->
             snd (run_server u w) = Raise e) /\
  (forall e, escapes (close_failure w) = None ->
             escapes (first_failure u) = Some e ->
             snd (run_server u w) = Raise e).
Proof.
  split; [intros e; apply run_server_raises_not_Exception|].
  rewrite run_server_result.
  destruct (escapes (close_failure w)) as [e1|];
    destruct (escapes (first_failure u)) as [e2|];
    (split; [split; [try discriminate; auto | intros [? ?]; congruence]|]);
    (split; [intros e [= <-]; reflexivity | intros e He1 [= <-]; congruence])
    || (split; [intros e; discriminate | intros e _ He; congruence]).
Qed.

(** X6: what one execution of [run_server] logs: the server error, when
    the first call of the [try] block to fail raised an instance of
    [Exception]; then the records of [__cleanup]; and always, last,
    "cleanup process completed". *)
Theorem run_server_log (u : uvicorn) (w : world) :
  log (fst (run_server u w)) =
  log w ++
  match first_failure u with
  | Some e => if isinstance_Exception e then [server_error e] else []
  | None => []
  end ++
  cleanup_records w ++ [cleanup_completed].
Proof.
  rewrite run_server_unfold, cleanup_log, serve_guarded_log.
  destruct (serve_guarded_frame u w) as (_ & _ & Hdb & _).
  unfold cleanup_records. rewrite Hdb. now rewrite <- app_assoc.
Qed.

(** ** [run] *)

(** What [run] does when [run_until_complete] refuses with [msg]: the
    error is reported and nothing else happens. *)
Lemma run_refused (l : event_loop) (u : uvicorn) (w : world) (msg : string) :
  run_until_complete l (run_server u) w = (w, Raise (runtime_error msg)) ->
  run (Return l) u w =
    (add_log (main_loop_error (runtime_error msg)) w, Return tt).
Proof.
  intros H. unfold run, try_except_Exception, bind, outside.
  rewrite H. reflexivity.
Qed.

(** X7: when [asyncio.get_event_loop()] raises an instance of [Exception],
    or when [run_until_complete] refuses the loop it returned (it is closed,
    which is checked first; it is running; or, for a loop that is not
    running, another loop is running in the thread), [run] reports "An error
    occurred in the main event loop" with the message of that exception and
    returns, and neither the server nor [__cleanup] has run; an exception of
    [get_event_loop] that is not an instance of [Exception] leaves [run].
    Otherwise [run] is [run_server] executed with the loop running (the loop
    running until [run_server] is done), which is no longer running
    afterwards: nothing that goes wrong in the server or in [__cleanup] is
    reported by [run], and whatever leaves [run_server] leaves [run].  No
    instance of [Exception] ever leaves [run]. *)
Theorem run_cases (g : result event_loop) (u : uvicorn) (w : world) :
  (forall e, g = Raise e -> isinstance_Exception e = true ->
     run g u w = (add_log (main_loop_error e) w, Return tt)) /\
  (forall e, g = Raise e -> isinstance_Exception e = false ->
     run g u w = (w, Raise e)) /\
  (forall l, g = Return l -> is_closed l = true ->
     run g u w =
       (add_log (main_loop_error (runtime_error "Event loop is closed")) w,
        Return tt)) /\
  (forall l, g = Return l -> is_closed l = false -> is_running l = true ->
     run g u w =
       (add_log (main_loop_error
                   (runtime_error "This event loop is already running")) w,
        Return tt)) /\
  (forall l, g = Return l -> is_closed l = false -> is_running l = false ->
     loop_running w = true ->
     run g u w =
       (add_log (main_loop_error
                   (runtime_error
                      "Cannot run the event loop while another loop is running"))
          w,
        Return tt)) /\
  (forall l, g = Return l -> is_closed l = false -> is_running l = false ->
     loop_running w = false ->
     run g u w =
       (set_loop_running false (fst (run_server u (set_loop_running true w))),
        snd (run_server u (set_loop_running true w)))) /\
  (forall e, snd (run g u w) = Raise e -> isinstance_Exception e = false).
Proof.
  assert (H1 : forall e, g = Raise e -> isinstance_Exception e = true ->
     run g u w = (add_log (main_loop_error e) w, Return tt)).
  { intros e -> Hi. unfold run, try_except_Exception, bind, outside.
    rewrite Hi. reflexivity. }
  assert (H2 : forall e, g = Raise e -> isinstance_Exception e = false ->
     run g u w = (w, Raise e)).
  { intros e -> Hi. unfold run, try_except_Exception, bind, outside.
    rewrite Hi. reflexivity. }
  assert (H3 : forall l, g = Return l -> is_closed l = true ->
     run g u w =
       (add_log (main_loop_error (runtime_error "Event loop is closed")) w,
        Return tt)).
  { intros l -> Hc. apply run_refused.
    unfold run_until_complete, bind, check_closed. rewrite Hc. reflexivity. }
  assert (H4 : forall l, g = Return l -> is_closed l = false ->
     is_running l = true ->
     run g u w =
       (add_log (main_loop_error
                   (runtime_error "This event loop is already running")) w,
        Return tt)).
  { intros l -> Hc Hr. apply run_refused.
    unfold run_until_complete, bind, check_closed, check_running.
    rewrite Hc, Hr. reflexivity. }
  assert (H5 : forall l, g = Return l -> is_closed l = false ->
     is_running l = false -> loop_running w = true ->
     run g u w =
       (add_log (main_loop_error
                   (runtime_error
                      "Cannot run the event loop while another loop is running"))
          w,
        Return tt)).
  { intros l -> Hc Hr Hw. apply run_refused.
    unfold run_until_complete, bind, check_closed, check_running.
    rewrite Hc, Hr. cbv beta iota. rewrite Hw. reflexivity. }
  assert (H6 : forall l, g = Return l -> is_closed l = false ->
     is_running l = false -> loop_running w = false ->
     run g u w =
       (set_loop_running false (fst (run_server u (set_loop_running true w))),
        snd (run_server u (set_loop_running true w)))).
  { intros l -> Hc Hr Hw.
    unfold run, try_except_Exception, outside, run_until_complete,
      check_closed, check_running, bind.
    rewrite Hc, Hr. cbv beta iota. rewrite Hw.
    pose proof (run_server_raises_not_Exception u (set_loop_running true w))
      as Hn.
    destruct (run_server u (set_loop_running true w)) as [w1 [[]|e]];
      cbn [fst snd] in *; [reflexivity|].
    rewrite (Hn e eq_refl). reflexivity. }
  split; [exact H1|]. split; [exact H2|]. split; [exact H3|].
  split; [exact H4|]. split; [exact H5|]. split; [exact H6|].
  intros e. destruct g as [l|eg].
  - specialize (H3 l eq_refl). specialize (H4 l eq_refl).
    specialize (H5 l eq_refl). specialize (H6 l eq_refl).
    destruct (is_closed l); [rewrite (H3 eq_refl); discriminate|].
    destruct (is_running l); [rewrite (H4 eq_refl eq_refl); discriminate|].
    destruct (loop_running w).
    + rewrite (H5 eq_refl eq_refl eq_refl). discriminate.
    + rewrite (H6 eq_refl eq_refl eq_refl). cbn [snd].
      apply run_server_raises_not_Exception.
  - destruct (isinstance_Exception eg) eqn:Hi.
    + rewrite (H1 eg eq_refl Hi). discriminate.
    + rewrite (H2 eg eq_refl Hi). intros [= <-]. exact Hi.
Qed.

(** ** Several shutdown sequences *)

(** A task of [shutdown_procedures] whose cancellation was requested while
    it waits stays so until it is resumed, and then ends cancelled. *)
Lemma step_cancelled_waiter (a : nat) (ts : list nat) (w w' : world) :
  step w w' ->
  (tasks w !! a =
     Some {| t_coro := ShutdownProcedures (SdWaiting ts);
             t_status := Pending true |} \/
   tasks w !! a =
     Some {| t_coro := ShutdownProcedures (SdWaiting ts);
             t_status := Done Cancelled |}) ->
  (tasks w' !! a =
     Some {| t_coro := ShutdownProcedures (SdWaiting ts);
             t_status := Pending true |} \/
   tasks w' !! a =
     Some {| t_coro := ShutdownProcedures (SdWaiting ts);
             t_status := Done Cancelled |}).
Proof.
  intros Hstep [Ha|Ha].
  - destruct (step_entry w w' a _ Hstep Ha) as (t' & Ht' & Hc).
    destruct Hc as [->| ->|c' [=] _|c' [=] _|ts' c' [= <- <-] _ -> _];
      rewrite Ht'; auto.
  - right. now apply (step_done_frozen w w' a _ Hstep Ha).
Qed.

Lemma steps_cancelled_waiter (a : nat) (ts : list nat) (w w' : world) :
  steps w w' ->
  (tasks w !! a =
     Some {| t_coro := ShutdownProcedures (SdWaiting ts);
             t_status := Pending true |} \/
   tasks w !! a =
     Some {| t_coro := ShutdownProcedures (SdWaiting ts);
             t_status := Done Cancelled |}) ->
  (tasks w' !! a =
     Some {| t_coro := ShutdownProcedures (SdWaiting ts);
             t_status := Pending true |} \/
   tasks w' !! a =
     Some {| t_coro := ShutdownProcedures (SdWaiting ts);
             t_status := Done Cancelled |}).
Proof.
  induction 1 as [w|w1 w2 w3 _ IH Hstep]; [auto|].
  intros Ha. eapply step_cancelled_waiter; eauto.
Qed.

(** X8: a second signal while an earlier [shutdown_procedures] is still
    waiting: the new task enumerates the earlier one and requests its
    cancellation; from then on the earlier one can only end cancelled, so it
    never reaches line 201 and never sets the event; and the new one has
    returned only after the earlier one has ended. *)
Theorem later_shutdown_cancels_earlier
    (w : world) (a b : nat) (ts : list nat) (c : bool) :
  tasks w !! a =
    Some {| t_coro := ShutdownProcedures (SdWaiting ts);
            t_status := Pending c |} ->
  tasks w !! b = Some shutdown_task ->
  let w1 := shutdown_begin b w in
  In a (shutdown_enumerate b w) /\
  tasks w1 !! a =
    Some {| t_coro := ShutdownProcedures (SdWaiting ts);
            t_status := Pending true |} /\
  (forall w2, steps w1 w2 ->
     (status_of w2 a = Some (Pending true) \/
      status_of w2 a = Some (Done Cancelled)) /\
     (status_of w2 b = Some (Done Completed) ->
      status_of w2 a = Some (Done Cancelled))).
Proof.
  intros Ha Hb w1.
  assert (Hne : a <> b).
  { intros ->. rewrite Ha in Hb. discriminate. }
  assert (Hin : In a (shutdown_enumerate b w)).
  { apply shutdown_enumerate_spec. split; [exact Hne|]. eauto. }
  assert (Ha1 : tasks w1 !! a =
    Some {| t_coro := ShutdownProcedures (SdWaiting ts);
            t_status := Pending true |}).
  { subst w1. rewrite shutdown_begin_lookup_ne by exact Hne.
    rewrite (cancel_all_lookup_in _ _ _ Hin), Ha. reflexivity. }
  split; [exact Hin|]. split; [exact Ha1|].
  intros w2 Hsteps.
  pose proof (steps_cancelled_waiter a ts w1 w2 Hsteps (or_introl Ha1)) as Ha2.
  assert (Hst : status_of w2 a = Some (Pending true) \/
                status_of w2 a = Some (Done Cancelled)).
  { unfold status_of. destruct Ha2 as [-> | ->]; auto. }
  split; [exact Hst|].
  intros Hret.
  pose proof (steps_waiting_or_ended b _ w1 w2 Hsteps
                (shutdown_begin_waiting b w Hb)) as Hinv.
  unfold status_of in Hret.
  destruct Hinv as [(c' & Hb2)|[(k & Hb2 & Hall & _)|(k & Hb2)]];
    rewrite Hb2 in Hret; try discriminate.
  specialize (Hall a Hin). unfold task_done in Hall.
  destruct Hst as [Hp|Hd]; [|exact Hd].
  unfold status_of in Hp. destruct (tasks w2 !! a) as [t|]; [|discriminate].
  cbn in Hp. injection Hp as Hp. unfold is_done in Hall.
  rewrite Hp in Hall. discriminate.
Qed.

(** The first shutdown task (3) waits for task 0; a second signal created
    task 4. *)
Lemma later_shutdown_cancels_earlier_witness :
  let w := {| loop_running := true;
              tasks := [{| t_coro := Opaque; t_status := Pending true |};
                        {| t_coro := Opaque; t_status := Done Cancelled |};
                        {| t_coro := Opaque; t_status := Done Cancelled |};
                        {| t_coro := ShutdownProcedures (SdWaiting [0; 1; 2]);
                           t_status := Pending false |};
                        shutdown_task];
              shutdown_event := false; db_session := None;
              log := []; calls := [] |} in
  tasks w !! 3 =
    Some {| t_coro := ShutdownProcedures (SdWaiting [0; 1; 2]);
            t_status := Pending false |} /\
  tasks w !! 4 = Some shutdown_task /\
  shutdown_enumerate 4 w = [0; 3] /\
  tasks (shutdown_begin 4 w) !! 3 =
    Some {| t_coro := ShutdownProcedures (SdWaiting [0; 1; 2]);
            t_status := Pending true |}.
Proof.
  intros w. split; [reflexivity|]. split; [reflexivity|].
  split; [reflexivity|].
  destruct (later_shutdown_cancels_earlier w 3 4 [0; 1; 2] false
              eq_refl eq_refl) as (_ & H1 & _).
  exact H1.
Defined.

(** ** Invariants of the states the process can reach *)

Lemma step_tasks_shape (w w' : world) :
  step w w' ->
  length (tasks w') = length (tasks w) \/
  exists t,
    (t = {| t_coro := Opaque; t_status := Pending false |} \/ t = shutdown_task) /\
    tasks w' = tasks w ++ [t].
Proof.
  intros Hstep. destruct Hstep as
    [w b|w|w i c o Hi|w i|w i Hi|w s|w signum|w me w' Hs|w me w' Hr|w u|w].
  - left. reflexivity.
  - unfold asyncio_create_task. destruct (loop_running w); cbn; eauto.
  - left. apply set_status_length.
  - left. apply length_alter.
  - left. apply set_status_length.
  - left. reflexivity.
  - unfold signal_handler, bind, logging, modify, ret, asyncio_create_task.
    cbn [loop_running add_log]. destruct (loop_running w); cbn; eauto.
  - left. now apply (sd_start_length me).
  - left. apply sd_resume_inv in Hr as (ts & c & _ & _ & ->).
    destruct c; [apply set_status_length|].
    unfold shutdown_finish. rewrite set_status_length. reflexivity.
  - left. destruct (run_server_frame u w) as (-> & _). reflexivity.
  - left. destruct (cleanup_frame w) as (-> & _). reflexivity.
Qed.

(** A task that a step creates is pending and has not run. *)
Lemma step_new_entry (w w' : world) (a : nat) (t' : task) :
  step w w' ->
  length (tasks w) <= a ->
  tasks w' !! a = Some t' ->
  t' = {| t_coro := Opaque; t_status := Pending false |} \/ t' = shutdown_task.
Proof.
  intros Hstep Hlen Ht'.
  destruct (step_tasks_shape w w' Hstep) as [Heq|(t & Ht & Heq)].
  - apply lookup_lt_Some in Ht'. lia.
  - rewrite Heq in Ht'. rewrite lookup_app_r in Ht' by exact Hlen.
    destruct (a - length (tasks w)) as [|n]; cbn in Ht'; [|discriminate].
    injection Ht' as <-. exact Ht.
Qed.

(** A task is found waiting after a step only if it was waiting before, or
    if the step ran it for the first time. *)
Lemma step_waits_for_back (w w' : world) (a : nat) (ts : list nat) :
  step w w' ->
  waits_for w' a ts ->
  waits_for w a ts \/
  (tasks w !! a = Some shutdown_task /\
   w' = shutdown_begin a w /\ ts = shutdown_enumerate a w).
Proof.
  intros Hstep [s Ha'].
  destruct (tasks w !! a) as [t|] eqn:Ha.
  - destruct (step_entry w w' a t Hstep Ha) as (t' & Ht' & Hc).
    rewrite Ha' in Ht'. injection Ht' as <-.
    destruct Hc as [<-|Hc|c' _ Hk|c' -> Hs|ts' c' -> _ [= <- _] _].
    + left. exists s. exact Ha.
    + left. destruct t as [k st]. exists st.
      assert (Hk : t_coro (request_cancel {| t_coro := k; t_status := st |}) =
                   ShutdownProcedures (SdWaiting ts)) by now rewrite <- Hc.
      rewrite request_cancel_coro in Hk. cbn in Hk. subst k. exact Ha.
    + discriminate.
    + destruct (sd_start_inv _ _ _ Hs) as (c & Hme & ->).
      rewrite Ha in Hme. injection Hme as <-. destruct c'.
      * rewrite set_status_lookup_eq, Ha in Ha'. discriminate.
      * right. rewrite (shutdown_begin_lookup_eq _ _ _ Ha) in Ha'.
        destruct (shutdown_enumerate a w) as [|i l]; [discriminate|].
        injection Ha' as <- _. auto.
    + left. eexists. exact Ha.
  - apply lookup_ge_None in Ha.
    destruct (step_new_entry w w' a _ Hstep Ha Ha') as [[=]|[=]].
Qed.

(** A task that is no longer a fresh task of [shutdown_procedures] does not
    become one. *)
Lemma step_not_fresh (w w' : world) (i : nat) (t t' : task) :
  step w w' ->
  tasks w !! i = Some t -> t <> shutdown_task ->
  tasks w' !! i = Some t' -> t' <> shutdown_task.
Proof.
  intros Hstep Ht Hne Ht'.
  destruct (step_entry w w' i t Hstep Ht) as (t'' & Ht'' & Hc).
  rewrite Ht' in Ht''. injection Ht'' as <-.
  destruct Hc as [->| ->|c' _ Hk|c' -> Hs|ts' c' _ _ -> _].
  - exact Hne.
  - destruct t as [k [c|o]]; [discriminate | exact Hne].
  - intros ->. discriminate.
  - destruct (sd_start_inv _ _ _ Hs) as (c & Hme & ->).
    rewrite Ht in Hme. injection Hme as <-. destruct c'.
    + rewrite set_status_lookup_eq, Ht in Ht'. injection Ht' as <-. discriminate.
    + contradiction.
  - discriminate.
Qed.

Lemma step_wait_inv (w w' : world) :
  step w w' -> wait_inv w -> wait_inv w'.
Proof.
  intros Hstep Hinv a ts Hw' i Hi.
  destruct (step_waits_for_back w w' a ts Hstep Hw') as [Hw|(Hfresh & -> & ->)].
  - destruct (Hinv a ts Hw i Hi) as (Hlt & Hne & Hnf & Hback).
    pose proof (step_length w w' Hstep) as Hlen.
    split; [lia|]. split; [exact Hne|]. split.
    + destruct (lookup_lt_is_Some_2 (tasks w) i Hlt) as [ti Hti].
      destruct (tasks w' !! i) as [ti'|] eqn:Hti'; [|discriminate].
      intros [= Heq].
      apply (step_not_fresh w w' i ti ti' Hstep Hti); [congruence|exact Hti'|exact Heq].
    + intros ts' Hwi'.
      destruct (step_waits_for_back w w' i ts' Hstep Hwi')
        as [Hwi|(Hfi & _)]; [now apply Hback | contradiction].
  - pose proof Hi as Hi'.
    apply shutdown_enumerate_spec in Hi' as (Hne & k & c & Hti).
    assert (Hti' : tasks (shutdown_begin a w) !! i =
                   Some {| t_coro := k; t_status := Pending true |}).
    { rewrite shutdown_begin_lookup_ne by exact Hne.
      rewrite (cancel_all_lookup_in _ _ _ Hi), Hti. reflexivity. }
    split; [rewrite shutdown_begin_length; now apply lookup_lt_Some in Hti|].
    split; [exact Hne|]. split; [rewrite Hti'; discriminate|].
    intros ts' [s Hwi'] Hin. rewrite Hti' in Hwi'. injection Hwi' as -> _.
    assert (Hwi : waits_for w i ts') by (eexists; exact Hti).
    destruct (Hinv i ts' Hwi a Hin) as (_ & _ & Hnf & _). contradiction.
Qed.

Lemma reachable_wait_inv (w : world) : reachable w -> wait_inv w.
Proof.
  unfold reachable. intros Hsteps.
  remember init_world as w0 eqn:Hw0.
  induction Hsteps as [w|w1 w2 w3 _ IH Hstep].
  - subst w. intros a ts [s Ha]. discriminate.
  - eapply step_wait_inv; eauto.
Qed.

(** X9: in every state reachable from the constructed agent, a task of
    [shutdown_procedures] never waits for itself; every task it waits for
    exists; a task of [shutdown_procedures] among them has either run already
    or had its cancellation requested before running (so it never runs its
    body); and none of them waits for it in return.  Two shutdown sequences
    started by two signals therefore never wait for each other. *)
Theorem shutdown_waits_acyclic (w : world) (a : nat) (ts : list nat) :
  reachable w ->
  waits_for w a ts ->
  ~ In a ts /\
  forall b, In b ts ->
    b < length (tasks w) /\
    tasks w !! b <> Some shutdown_task /\
    forall ts', waits_for w b ts' -> ~ In a ts'.
Proof.
  intros Hr Hw. pose proof (reachable_wait_inv w Hr a ts Hw) as Hok.
  split.
  - intros Hin. destruct (Hok a Hin) as (_ & Hne & _). now apply Hne.
  - intros b Hb. destruct (Hok b Hb) as (Hlt & _ & Hnf & Hback). auto.
Qed.

Lemma scenario_waiting_reachable : reachable scenario_waiting.
Proof.
  unfold reachable, scenario_waiting.
  eapply steps_step; [|apply (step_sd_start scenario_signalled 3); reflexivity].
  unfold scenario_signalled.
  eapply steps_step; [|apply step_signal].
  eapply steps_step; [|apply step_create].
  eapply steps_step; [|apply step_create].
  eapply steps_step; [|apply step_create].
  eapply steps_step; [apply steps_refl|apply (step_loop init_world true)].
Qed.

Lemma scenario_end_reachable : reachable scenario_end.
Proof.
  unfold reachable, scenario_end.
  set (w0 := set_status 0 (Done Cancelled) scenario_waiting).
  set (w1 := set_status 1 (Done Cancelled) w0).
  set (w2 := set_status 2 (Done Cancelled) w1).
  eapply steps_step; [|apply (step_sd_resume w2 3); reflexivity].
  eapply steps_step; [|apply (step_settle w1 2 true Cancelled); reflexivity].
  eapply steps_step; [|apply (step_settle w0 1 true Cancelled); reflexivity].
  eapply steps_step;
    [|apply (step_settle scenario_waiting 0 true Cancelled); reflexivity].
  apply scenario_waiting_reachable.
Qed.

Lemma shutdown_waits_acyclic_witness :
  reachable scenario_waiting /\
  waits_for scenario_waiting 3 [0; 1; 2] /\
  ~ In 3 [0; 1; 2] /\
  (forall b, In b [0; 1; 2] ->
     b < length (tasks scenario_waiting) /\
     tasks scenario_waiting !! b <> Some shutdown_task /\
     forall ts', waits_for scenario_waiting b ts' -> ~ In 3 ts').
Proof.
  assert (Hw : waits_for scenario_waiting 3 [0; 1; 2])
    by (eexists; reflexivity).
  split; [exact scenario_waiting_reachable|]. split; [exact Hw|].
  exact (shutdown_waits_acyclic scenario_waiting 3 [0; 1; 2]
           scenario_waiting_reachable Hw).
Defined.

(** A task found to have returned from [shutdown_procedures] after a step
    had returned before, or the step set the event. *)
Lemma step_completed_back (w w' : world) (me : nat) (pc : sd_pc) :
  step w w' ->
  tasks w' !! me =
    Some {| t_coro := ShutdownProcedures pc; t_status := Done Completed |} ->
  tasks w !! me =
    Some {| t_coro := ShutdownProcedures pc; t_status := Done Completed |} \/
  shutdown_event w' = true.
Proof.
  intros Hstep Hme'.
  destruct (tasks w !! me) as [t|] eqn:Hme.
  - destruct (step_entry w w' me t Hstep Hme) as (t' & Ht' & Hc).
    rewrite Hme' in Ht'. injection Ht' as <-.
    destruct Hc as [<-|Hc|c' _ Hk|c' -> Hs|ts' c' -> _ [= <- Hd] He].
    + left. reflexivity.
    + left. destruct t as [k [c|o]]; [discriminate|]. now rewrite Hc.
    + discriminate.
    + right. destruct (sd_start_inv _ _ _ Hs) as (c & Ht & ->).
      rewrite Hme in Ht. injection Ht as <-. destruct c'.
      * rewrite set_status_lookup_eq, Hme in Hme'. discriminate.
      * rewrite (shutdown_begin_lookup_eq _ _ _ Hme) in Hme'.
        rewrite shutdown_begin_event.
        destruct (shutdown_enumerate me w); [reflexivity|discriminate].
    + right. destruct c'; [discriminate|]. now apply He.
  - apply lookup_ge_None in Hme.
    destruct (step_new_entry w w' me _ Hstep Hme Hme') as [[=]|[=]].
Qed.

Lemma step_completed_shutdown (w w' : world) :
  step w w' ->
  (shutdown_event w = true -> exists me, completed_shutdown w me) ->
  shutdown_event w' = true -> exists me, completed_shutdown w' me.
Proof.
  intros Hstep IH He'.
  destruct (shutdown_event w) eqn:He.
  - destruct (IH eq_refl) as (me & pc & Hme & Hall).
    exists me, pc. split.
    + now apply (step_done_frozen w w' me _ Hstep Hme).
    + intros i Hi. eapply step_task_done; eauto.
  - destruct (step_event w w' Hstep) as [Heq|(_ & me & pc & Hme & Hs & Hall)];
      [congruence|].
    exists me.
    destruct (step_entry w w' me _ Hstep Hme) as (t' & Ht' & Hc).
    unfold status_of in Hs. rewrite Ht' in Hs. cbn in Hs. injection Hs as Hs.
    destruct Hc as [->| ->|c' [=] _|c' [= -> <-] Hst|ts' c' [= -> <-] _ -> _];
      try discriminate.
    + destruct (sd_start_inv _ _ _ Hst) as (c & Ht & ->).
      rewrite Hme in Ht. injection Ht as <-.
      rewrite (shutdown_begin_lookup_eq _ _ _ Hme) in Ht'.
      destruct (shutdown_enumerate me w) as [|i l] eqn:E.
      * exists SdCreated. split; [|intros i []].
        rewrite (shutdown_begin_lookup_eq _ _ _ Hme), E. reflexivity.
      * injection Ht' as <-. discriminate.
    + exists (SdWaiting ts'). split; [exact Ht'|].
      intros i Hi. apply Hall. unfold enumerated. rewrite Hme. exact Hi.
Qed.

Lemma reachable_event_iff (w : world) :
  reachable w ->
  (shutdown_event w = true -> exists me, completed_shutdown w me) /\
  (forall me pc,
     tasks w !! me =
       Some {| t_coro := ShutdownProcedures pc; t_status := Done Completed |} ->
     shutdown_event w = true).
Proof.
  unfold reachable. intros Hsteps.
  remember init_world as w0 eqn:Hw0.
  induction Hsteps as [w|w1 w2 w3 _ IH Hstep].
  - subst w. split; [discriminate|]. intros me pc Hme. discriminate.
  - destruct (IH Hw0) as [IH1 IH2]. split.
    + now apply (step_completed_shutdown w2 w3).
    + intros me pc Hme.
      destruct (step_completed_back w2 w3 me pc Hstep Hme) as [H2|H3];
        [|exact H3].
      eapply step_event_mono; eauto.
Qed.

(** X10: in every state reachable from the constructed agent the shutdown
    event is set exactly when some task has run [shutdown_procedures] to its
    return; and then every task that one waited for is done. *)
Theorem shutdown_event_iff_completed (w : world) :
  reachable w ->
  (shutdown_event w = true <-> exists me, completed_shutdown w me).
Proof.
  intros Hr. destruct (reachable_event_iff w Hr) as [H1 H2].
  split; [exact H1|]. intros (me & pc & Hme & _). eapply H2; eauto.
Qed.

Lemma shutdown_event_iff_completed_witness :
  reachable scenario_end /\
  shutdown_event scenario_end = true /\
  (shutdown_event scenario_end = true <->
   exists me, completed_shutdown scenario_end me).
Proof.
  split; [exact scenario_end_reachable|]. split; [reflexivity|].
  exact (shutdown_event_iff_completed scenario_end scenario_end_reachable).
Defined.

(** ** Optional dependencies and the wallet *)

Lemma check_optional_dependencies_cases (import_web3 : result unit) (h : host) :
  _check_optional_dependencies import_web3 h =
  match import_web3 with
  | Return _ => (set_optional_dependencies (insert "web3" true) h, Return tt)
  | Raise e =>
      if isinstance_ImportError e
      then (set_optional_dependencies (insert "web3" false) h, Return tt)
      else (h, Raise e)
  end.
Proof.
  unfold _check_optional_dependencies, h_try_except, h_bind, h_outside, h_modify.
  destruct import_web3 as [[]|e]; [reflexivity|].
  destruct (isinstance_ImportError e); reflexivity.
Qed.

Lemma setup_wallet_cases (c : wallet_calls) (h : host) :
  setup_wallet c h =
  if dict_get_truthy (optional_dependencies h) "web3"
  then match import_WalletStore c with
       | Raise e => (h, Raise e)
       | Return _ =>
           match new_WalletStore c with
           | Raise e => (h, Raise e)
           | Return _ =>
               match add_wallet c with
               | Raise e => (set_wallet_store (WalletStore false) h, Raise e)
               | Return _ => (set_wallet_store (WalletStore true) h, Return tt)
               end
           end
       end
  else (add_warning web3_warning (set_wallet_store WalletNone h), Return tt).
Proof.
  unfold setup_wallet, h_bind, h_outside, h_modify.
  destruct (dict_get_truthy (optional_dependencies h) "web3"); [|reflexivity].
  destruct (import_WalletStore c) as [[]|e1]; [|reflexivity].
  destruct (new_WalletStore c) as [[]|e2]; [|reflexivity].
  destruct (add_wallet c) as [[]|e3]; reflexivity.
Qed.

(** X11: [_check_optional_dependencies] followed by the wallet step of
    [__setup], on a new object.  The check raises only when the import of
    web3 raised something that is not an [ImportError], and then leaves the
    dictionary as it was; otherwise it records under "web3" whether the
    import succeeded, overwriting any earlier entry and no other key.  The
    wallet store is then [None], with the warning logged, exactly when web3
    could not be imported; when it could, no warning is logged and the store
    holds a wallet exactly when the three calls into [hive_agent.wallet]
    returned; if [add_wallet] raises, the store stays assigned without a
    wallet and the exception leaves [__setup]. *)
Theorem wallet_store_follows_web3
    (import_web3 : result unit) (c : wallet_calls) (h : host) :
  wallet_store h = WalletUnset ->
  let h1 := fst (_check_optional_dependencies import_web3 h) in
  let r1 := snd (_check_optional_dependencies import_web3 h) in
  let h2 := fst (setup_wallet c h1) in
  let r2 := snd (setup_wallet c h1) in
  (forall e, r1 = Raise e <->
     import_web3 = Raise e /\ isinstance_ImportError e = false) /\
  (is_return r1 = false -> optional_dependencies h1 = optional_dependencies h) /\
  (r1 = Return tt ->
     optional_dependencies h1 !! "web3" = Some (is_return import_web3) /\
     (forall k, k <> "web3" ->
        optional_dependencies h1 !! k = optional_dependencies h !! k) /\
     (wallet_store h2 = WalletNone <-> is_return import_web3 = false) /\
     (is_return import_web3 = false ->
        r2 = Return tt /\ warnings h2 = warnings h ++ [web3_warning]) /\
     (is_return import_web3 = true ->
        warnings h2 = warnings h /\
        (wallet_store h2 = WalletStore true <->
         import_WalletStore c = Return tt /\ new_WalletStore c = Return tt /\
         add_wallet c = Return tt) /\
        (r2 = Return tt <-> wallet_store h2 = WalletStore true) /\
        (forall e,
           import_WalletStore c = Return tt -> new_WalletStore c = Return tt ->
           add_wallet c = Raise e ->
           wallet_store h2 = WalletStore false /\ r2 = Raise e))).
Proof.
  intros Hw h1 r1 h2 r2. subst h2 r2 h1 r1.
  rewrite check_optional_dependencies_cases.
  destruct import_web3 as [[]|e0].
  - cbn [fst snd is_return].
    split; [intros e; split; [discriminate | intros [[=] _]]|].
    split; [discriminate|]. intros _.
    rewrite setup_wallet_cases. cbn [optional_dependencies set_optional_dependencies].
    unfold dict_get_truthy. rewrite lookup_insert_eq.
    split; [reflexivity|].
    split; [intros k Hk; now rewrite lookup_insert_ne by congruence|].
    destruct (import_WalletStore c) as [[]|e1];
      [destruct (new_WalletStore c) as [[]|e2];
         [destruct (add_wallet c) as [[]|e3]|]|];
      cbn; rewrite ?Hw;
      (split; [split; discriminate|]); (split; [discriminate|]);
      intros _; (split; [reflexivity|]);
      (split; [split; [try discriminate; auto | intros (?&?&?); congruence]|]);
      (split; [split; [try discriminate; auto | try discriminate; auto]|]);
      intros e ? ? ?; try discriminate; split; congruence.
  - destruct (isinstance_ImportError e0) eqn:Hi; cbn [fst snd is_return].
    + split; [intros e; split; [discriminate | intros [[= <-] Hn]; congruence]|].
      split; [discriminate|]. intros _.
      rewrite setup_wallet_cases.
      cbn [optional_dependencies set_optional_dependencies].
      unfold dict_get_truthy. rewrite lookup_insert_eq.
      split; [reflexivity|].
      split; [intros k Hk; now rewrite lookup_insert_ne by congruence|].
      cbn. split; [split; reflexivity|]. split; [auto|]. discriminate.
    + split; [intros e; split; [intros [= <-]; auto | intros [[= <-] _]; reflexivity]|].
      split; [reflexivity|]. discriminate.
Qed.

Lemma wallet_store_follows_web3_witness :
  let h := {| optional_dependencies := {["web3" := true]};
              wallet_store := WalletUnset; middleware := []; routes_set := false;
              signal_table := ∅; warnings := [] |} in
  let missing := Raise {| exc_type := OtherException "ModuleNotFoundError";
                          exc_str := "No module named 'web3'" |} in
  let c := {| import_WalletStore := Return tt; new_WalletStore := Return tt;
              add_wallet := Return tt |} in
  let h1 := fst (_check_optional_dependencies missing h) in
  wallet_store h = WalletUnset /\
  snd (_check_optional_dependencies missing h) = Return tt /\
  optional_dependencies h1 !! "web3" = Some false /\
  wallet_store (fst (setup_wallet c h1)) = WalletNone.
Proof.
  intros h missing c h1. split; [reflexivity|]. split; [reflexivity|].
  destruct (wallet_store_follows_web3 missing c h eq_refl) as (_ & _ & Hok).
  destruct (Hok eq_refl) as (Hd & _ & Hnone & _).
  split; [exact Hd|]. apply Hnone. reflexivity.
Defined.

(** ** [__setup_server]: CORS, routes and signal handlers *)

Lemma configure_cors_cases (environment : option string) (add : result unit)
    (h : host) :
  configure_cors environment add h =
  if is_dev environment
  then match add with
       | Return _ =>
           (add_middleware cors_allow_all
              (add_warning
                 "Running in development mode - allowing CORS for all origins" h),
            Return tt)
       | Raise e =>
           (add_warning
              "Running in development mode - allowing CORS for all origins" h,
            Raise e)
       end
  else (h, Return tt).
Proof.
  unfold configure_cors, is_dev, h_bind, h_modify, h_outside, h_ret.
  destruct environment as [env|]; [|reflexivity].
  destruct (String.eqb env "dev"); [|reflexivity].
  destruct add as [[]|e]; reflexivity.
Qed.

(** Whether [__setup_server] runs to its end. *)
Lemma setup_server_returns (self : nat) (s : server_setup) (h : host) :
  snd (setup_server self s h) = Return tt <->
  (is_dev (environment s) = true -> add_middleware_result s = Return tt) /\
  setup_routes_result s = Return tt /\
  main_thread s = true.
Proof.
  unfold setup_server, h_bind. rewrite configure_cors_cases.
  unfold signal_signal, h_modify, h_outside, h_raise.
  destruct (is_dev (environment s));
    destruct (add_middleware_result s) as [[]|e1];
    destruct (setup_routes_result s) as [[]|e2];
    destruct (main_thread s); cbn [fst snd];
    intuition (try discriminate; try congruence).
Qed.

(** The table of signal handlers after [__setup_server]. *)
Lemma setup_server_table (self : nat) (s : server_setup) (h : host) :
  signal_table (fst (setup_server self s h)) =
  if is_return (snd (setup_server self s h))
  then <[SIGTERM := self]> (<[SIGINT := self]> (signal_table h))
  else signal_table h.
Proof.
  unfold setup_server, h_bind. rewrite configure_cors_cases.
  unfold signal_signal, h_modify, h_outside, h_raise.
  destruct (is_dev (environment s));
    destruct (add_middleware_result s) as [[]|e1];
    destruct (setup_routes_result s) as [[]|e2];
    destruct (main_thread s); reflexivity.
Qed.

Lemma setup_server_app (self : nat) (s : server_setup) (h : host) :
  snd (setup_server self s h) = Return tt ->
  routes_set (fst (setup_server self s h)) = true /\
  middleware (fst (setup_server self s h)) =
    middleware h ++ (if is_dev (environment s) then [cors_allow_all] else []).
Proof.
  unfold setup_server, h_bind. rewrite configure_cors_cases.
  unfold signal_signal, h_modify, h_outside, h_raise.
  destruct (is_dev (environment s));
    destruct (add_middleware_result s) as [[]|e1];
    destruct (setup_routes_result s) as [[]|e2];
    destruct (main_thread s); cbn [fst snd]; try discriminate;
    intros _; cbn; rewrite ?app_nil_r; auto.
Qed.

(** X12: [__setup_server] installs the handler of the agent for SIGINT and
    for SIGTERM, or for neither: for both exactly when it runs to its end,
    which it does when the routes were set up, the CORS middleware (added in
    the "dev" environment only, and then once, allowing every origin) could
    be added, and the call is made in the main thread.  The handler of no
    other signal is changed. *)
Theorem setup_server_signals (self : nat) (s : server_setup) (h : host) :
  let h' := fst (setup_server self s h) in
  let r := snd (setup_server self s h) in
  (r = Return tt <->
   (is_dev (environment s) = true -> add_middleware_result s = Return tt) /\
   setup_routes_result s = Return tt /\
   main_thread s = true) /\
  (r = Return tt ->
     signal_table h' !! SIGINT = Some self /\
     signal_table h' !! SIGTERM = Some self /\
     routes_set h' = true /\
     middleware h' =
       middleware h ++ (if is_dev (environment s) then [cors_allow_all] else [])) /\
  (r <> Return tt -> signal_table h' = signal_table h) /\
  (forall k, k <> SIGINT -> k <> SIGTERM ->
     signal_table h' !! k = signal_table h !! k).
Proof.
  intros h' r. subst h' r.
  split; [apply setup_server_returns|].
  rewrite setup_server_table.
  split; [|split].
  - intros Hr. rewrite Hr. cbn [is_return].
    split; [rewrite lookup_insert_ne by discriminate; apply lookup_insert_eq|].
    split; [apply lookup_insert_eq|]. now apply setup_server_app.
  - intros Hr. destruct (snd (setup_server self s h)) as [[]|e];
      [contradiction | reflexivity].
  - intros k H1 H2. destruct (is_return (snd (setup_server self s h)));
      [|reflexivity].
    rewrite !lookup_insert_ne by congruence. reflexivity.
Qed.

(** X13: the table of handlers belongs to the process.  When a second agent
    is constructed after a first one, SIGINT and SIGTERM are delivered to the
    second agent only; the first agent keeps no handler but those of other
    signals it had before its own construction. *)
Theorem setup_server_last_wins
    (a1 a2 : nat) (s1 s2 : server_setup) (h1 h2 : host) :
  a1 <> a2 ->
  signal_table h2 = signal_table (fst (setup_server a1 s1 h1)) ->
  snd (setup_server a2 s2 h2) = Return tt ->
  let h' := fst (setup_server a2 s2 h2) in
  signal_table h' !! SIGINT = Some a2 /\
  signal_table h' !! SIGTERM = Some a2 /\
  (forall k, signal_table h' !! k = Some a1 ->
     k <> SIGINT /\ k <> SIGTERM /\ signal_table h1 !! k = Some a1).
Proof.
  intros Hne Htab Hr h'. subst h'.
  rewrite setup_server_table, Hr, Htab, setup_server_table. cbn [is_return].
  split; [rewrite lookup_insert_ne by discriminate; apply lookup_insert_eq|].
  split; [apply lookup_insert_eq|].
  intros k Hk.
  destruct (decide (k = SIGTERM)) as [->|H15].
  { rewrite lookup_insert_eq in Hk. congruence. }
  rewrite lookup_insert_ne in Hk by congruence.
  destruct (decide (k = SIGINT)) as [->|H2].
  { rewrite lookup_insert_eq in Hk. congruence. }
  rewrite lookup_insert_ne in Hk by congruence.
  split; [exact H2|]. split; [exact H15|].
  destruct (is_return (snd (setup_server a1 s1 h1))); [|exact Hk].
  destruct (decide (k = SIGTERM)) as [->|H15']; [contradiction|].
  rewrite lookup_insert_ne in Hk by congruence.
  rewrite lookup_insert_ne in Hk by congruence. exact Hk.
Qed.

Lemma setup_server_last_wins_witness :
  let h := {| optional_dependencies := ∅; wallet_store := WalletNone;
              middleware := []; routes_set := false;
              signal_table := ∅; warnings := [] |} in
  let s := {| environment := Some "dev"; add_middleware_result := Return tt;
              setup_routes_result := Return tt; main_thread := true |} in
  let h1 := fst (setup_server 1 s h) in
  let h2 := fst (setup_server 2 s h1) in
  1 <> 2 /\
  snd (setup_server 2 s h1) = Return tt /\
  signal_table h1 !! SIGINT = Some 1 /\
  signal_table h2 !! SIGINT = Some 2 /\
  signal_table h2 !! SIGTERM = Some 2.
Proof.
  intros h s h1 h2. split; [discriminate|]. split; [reflexivity|].
  split; [reflexivity|].
  destruct (setup_server_last_wins 1 2 s s h h1) as (H1 & H2 & _);
    [discriminate | reflexivity | reflexivity |].
  split; [exact H1 | exact H2].
Defined.
